(** * AtomDB: the species record, its spline accessors and its file store

    A shallow embedding of [atomdb/species.py] and of the entry guard of
    [atomdb/datasets/hci_augccpwcvqz/__init__.py].

    Conventions of the embedding:
    - Python exceptions are values of [exn]; a call that may raise returns
      a [result].
    - Code that reads attributes of the record, builds or evaluates a
      spline, or touches files runs in the monad [M], a state-and-error
      monad over a [world] (the files of the database and a trace of the
      observable operations, in program order).
    - numpy arrays of floats are lists of real numbers (1-D) and
      rectangular lists of rows (2-D); arithmetic on them is exact.
    - scipy's [CubicSpline], numpy's [exp] and [log], [atomdb.periodic],
      msgpack and [glob] are not part of the two embedded files: they are
      variables of the section. *)

From Stdlib Require Import ZArith String Ascii List Bool Lia Reals Lra.
Import ListNotations.

Local Open Scope string_scope.
Local Open Scope Z_scope.

(* ================================================================== *)
(** ** Python values, exceptions, results *)

(** The exception classes raised by the embedded code. *)
Inductive exn : Type :=
| ValueError
| TypeError
| AttributeError
| IndexError
| FileNotFoundError
| UnboundLocalError.

Inductive result (A : Type) : Type :=
| Ok (a : A)
| Err (e : exn).
Arguments Ok {A} a.
Arguments Err {A} e.

Definition rbind {A B} (r : result A) (k : A -> result B) : result B :=
  match r with
  | Ok a => k a
  | Err e => Err e
  end.

(** The Python objects that reach the scalar parameters of the embedded
    functions: [int], [bool], [float], [str], [None] and [Ellipsis]. *)
Inductive pyval : Type :=
| PyInt (z : Z)
| PyBool (b : bool)
| PyFloat (r : R)
| PyStr (s : string)
| PyNone
| PyEllipsis.

(** [isinstance(v, numbers.Integral)]: [int] and its subclass [bool]. *)
Definition is_Integral (v : pyval) : bool :=
  match v with
  | PyInt _ | PyBool _ => true
  | _ => false
  end.

(** [int(v)] on an integral value. *)
Definition int_of (v : pyval) : result Z :=
  match v with
  | PyInt z => Ok z
  | PyBool true => Ok 1
  | PyBool false => Ok 0
  | _ => Err TypeError
  end.

(** [v is Ellipsis] *)
Definition is_Ellipsis (v : pyval) : bool :=
  match v with
  | PyEllipsis => true
  | _ => false
  end.

(* ================================================================== *)
(** ** numpy arrays *)

(** A 1-D array of floats. *)
Notation vector := (list R) (only parsing).

(** A 2-D array: [ncols] is the length of the last axis (kept apart so
    that an array with no rows still has a shape), [rows] the rows. *)
Record matrix : Type := mkMatrix {
  ncols : nat;
  rows : list vector
}.

Definition nrows (m : matrix) : nat := length (rows m).

(** Every numpy array is rectangular. *)
Definition wf_matrix (m : matrix) : Prop :=
  Forall (fun r => length r = ncols m) (rows m).

(** [np.zeros(0).reshape(0)] *)
Definition default_vector : vector := [].

(** [np.zeros(0).reshape(1, 0)] *)
Definition default_matrix : matrix := mkMatrix 0 [[]].

(** Broadcasting of one axis: equal lengths, or one of them is 1. *)
Definition bdim (a b : nat) : option nat :=
  if Nat.eqb a b then Some a
  else if Nat.eqb a 1 then Some b
  else if Nat.eqb b 1 then Some a
  else None.

(** Stretch an axis of length 1 to length [n]; other axes are kept. *)
Definition stretch {A} (n : nat) (l : list A) : list A :=
  match l with
  | [x] => repeat x n
  | _ => l
  end.

Fixpoint map2 {A B C} (f : A -> B -> C) (l1 : list A) (l2 : list B) : list C :=
  match l1, l2 with
  | a :: l1', b :: l2' => f a b :: map2 f l1' l2'
  | _, _ => []
  end.

(** An elementwise binary operator on two 2-D arrays, with numpy's
    broadcasting; incompatible shapes raise [ValueError]. *)
Definition broadcast2 (op : R -> R -> R) (a b : matrix) : result matrix :=
  match bdim (nrows a) (nrows b), bdim (ncols a) (ncols b) with
  | Some nr, Some nc =>
      Ok (mkMatrix nc
            (map2 (fun ra rb => map2 op (stretch nc ra) (stretch nc rb))
                  (stretch nr (rows a)) (stretch nr (rows b))))
  | _, _ => Err ValueError
  end.

Definition nd_add : matrix -> matrix -> result matrix := broadcast2 Rplus.
Definition nd_sub : matrix -> matrix -> result matrix := broadcast2 Rminus.

(** One integer of an index sequence on an axis of length [n]: negative
    integers count from the end, anything outside [-n, n) raises. *)
Definition norm_index (n : nat) (i : Z) : result nat :=
  if (0 <=? i) && (i <? Z.of_nat n) then Ok (Z.to_nat i)
  else if (- Z.of_nat n <=? i) && (i <? 0) then Ok (Z.to_nat (i + Z.of_nat n))
  else Err IndexError.

Fixpoint take_rows_list (rs : list vector) (idx : list Z) : result (list vector) :=
  match idx with
  | [] => Ok []
  | i :: idx' =>
      rbind (norm_index (length rs) i) (fun k =>
      rbind (take_rows_list rs idx') (fun rest =>
      Ok (nth k rs [] :: rest)))
  end.

(** [arr[index]] for a list of integers [index]: the selected rows. *)
Definition take_rows (m : matrix) (idx : list Z) : result matrix :=
  rbind (take_rows_list (rows m) idx) (fun rs => Ok (mkMatrix (ncols m) rs)).

(** [arr[... if index is None else index]] *)
Definition select (m : matrix) (index : option (list Z)) : result matrix :=
  match index with
  | None => Ok m
  | Some idx => take_rows m idx
  end.

Definition vadd (u v : vector) : vector := map2 Rplus u v.
Definition vsub (u v : vector) : vector := map2 Rminus u v.
Definition vmul (u v : vector) : vector := map2 Rmult u v.

(** [arr.sum(axis=0)]: the rows added up, from the zero vector. *)
Definition sum_axis0 (m : matrix) : vector :=
  fold_left vadd (rows m) (repeat 0%R (ncols m)).

(* ================================================================== *)
(** ** Strings: [str.lower], [str.removesuffix], [os.path.join], ["03d"] *)

Definition lower_ascii (c : ascii) : ascii :=
  let n := nat_of_ascii c in
  if (Nat.leb 65 n && Nat.leb n 90)%bool then ascii_of_nat (n + 32) else c.

(** [s.lower()], for names written in ASCII (dataset names are module
    names): the letters A to Z are lowered, every other character is
    kept. *)
Fixpoint lower (s : string) : string :=
  match s with
  | EmptyString => EmptyString
  | String c s' => String (lower_ascii c) (lower s')
  end.

(** [s.startswith(p)] *)
Fixpoint startswith (p s : string) : bool :=
  match p, s with
  | EmptyString, _ => true
  | String _ _, EmptyString => false
  | String a p', String b s' => (Ascii.eqb a b && startswith p' s')%bool
  end.

(** [s.endswith(p)]: some tail of [s] is [p]. *)
Fixpoint endswith (p s : string) : bool :=
  (String.eqb s p
   || match s with
      | EmptyString => false
      | String _ s' => endswith p s'
      end)%bool.

(** [s.removesuffix(p)] *)
Definition removesuffix (s p : string) : string :=
  if (endswith p s && negb (String.eqb p ""))%bool
  then String.substring 0 (String.length s - String.length p) s
  else s.

(** [posixpath.join(a, *p)] *)
Fixpoint path_join (a : string) (p : list string) : string :=
  match p with
  | [] => a
  | b :: p' =>
      if startswith "/" b then path_join b p'
      else if (String.eqb a "" || endswith "/" a)%bool then path_join (a ++ b) p'
      else path_join (a ++ "/" ++ b) p'
  end.

Definition digit_char (d : Z) : ascii := ascii_of_nat (48 + Z.to_nat d).

(** The decimal digits of a non-negative integer, most significant
    first; [fuel] bounds the number of digits. *)
Fixpoint digits_acc (fuel : nat) (n : Z) (acc : string) : string :=
  match fuel with
  | O => acc
  | S fuel' =>
      let acc' := String (digit_char (n mod 10)) acc in
      if n / 10 =? 0 then acc' else digits_acc fuel' (n / 10) acc'
  end.

Definition digits (n : Z) : string :=
  digits_acc (S (Z.to_nat (Z.log2 n))) n "".

Fixpoint zeros (k : nat) : string :=
  match k with
  | O => ""
  | S k' => String "0" (zeros k')
  end.

(** [format(z, "03d")] for an [int]: the sign of a negative number, then
    the digits, padded with zeros after the sign to a total width of at
    least 3. *)
Definition format_03d_int (z : Z) : string :=
  let sign := if z <? 0 then "-" else "" in
  let ds := digits (Z.abs z) in
  sign ++ zeros (3 - String.length sign - String.length ds) ++ ds.

(** [f"{v:03d}"] for the values a key field can hold: [bool] formats as
    the integer it is, [float] and [str] reject the format code [d] with
    [ValueError], [None] (and [Ellipsis]) have no such format and raise
    [TypeError]. *)
Definition format_03d (v : pyval) : result string :=
  match v with
  | PyInt z => Ok (format_03d_int z)
  | PyBool b => Ok (format_03d_int (if b then 1 else 0))
  | PyFloat _ | PyStr _ => Err ValueError
  | PyNone | PyEllipsis => Err TypeError
  end.

(* ================================================================== *)
(** ** [SpeciesData] *)

Record SpeciesData : Type := mkSpeciesData {
  (* Species info *)
  elem : string;
  atnum : Z;
  basis : string;
  nelec : Z;
  nspin : Z;
  nexc : Z;
  (* Scalar energy and CDFT-related properties *)
  energy : option R;
  ip : option R;
  mu : option R;
  eta : option R;
  (* Radial grid *)
  rs : vector;
  (* Orbital energies *)
  mo_energy_a : vector;
  mo_energy_b : vector;
  (* Orbital occupations *)
  mo_occs_a : vector;
  mo_occs_b : vector;
  (* Orbital densities *)
  mo_dens_a : matrix;
  mo_dens_b : matrix;
  dens_tot : matrix;
  (* Orbital density gradients *)
  mo_d_dens_a : matrix;
  mo_d_dens_b : matrix;
  d_dens_tot : matrix;
  (* Orbital density Laplacian *)
  mo_dd_dens_a : matrix;
  mo_dd_dens_b : matrix;
  dd_dens_tot : matrix;
  (* Orbital kinetic energy densities *)
  mo_ked_a : matrix;
  mo_ked_b : matrix;
  ked_tot : matrix
}.

(** [getattr(data, name)] for the names of the 2-D array fields, the
    only ones the spline accessors build. *)
Definition getattr_array (d : SpeciesData) (name : string) : result matrix :=
  if String.eqb name "mo_dens_a" then Ok (mo_dens_a d)
  else if String.eqb name "mo_dens_b" then Ok (mo_dens_b d)
  else if String.eqb name "dens_tot" then Ok (dens_tot d)
  else if String.eqb name "mo_d_dens_a" then Ok (mo_d_dens_a d)
  else if String.eqb name "mo_d_dens_b" then Ok (mo_d_dens_b d)
  else if String.eqb name "d_dens_tot" then Ok (d_dens_tot d)
  else if String.eqb name "mo_dd_dens_a" then Ok (mo_dd_dens_a d)
  else if String.eqb name "mo_dd_dens_b" then Ok (mo_dd_dens_b d)
  else if String.eqb name "dd_dens_tot" then Ok (dd_dens_tot d)
  else if String.eqb name "mo_ked_a" then Ok (mo_ked_a d)
  else if String.eqb name "mo_ked_b" then Ok (mo_ked_b d)
  else if String.eqb name "ked_tot" then Ok (ked_tot d)
  else Err AttributeError.

(* ================================================================== *)
(** ** The world and the monad of effectful code *)

Definition bytes : Type := list Init.Byte.byte.

(** What the embedded code does that an observer can see, besides
    writing files. *)
Inductive event : Type :=
| EvGetattr (name : string)            (* [getattr(self._data, name)] *)
| EvCubicSpline (x y : vector)         (* [CubicSpline(x, y, ...)] *)
| EvSplineCall (x : vector) (nu : Z)   (* [self._obj(x, nu=nu)] *)
| EvOpen (fn mode : string)            (* [open(fn, mode)] *)
| EvExternal (callee : string).        (* a call into another package *)

(** The files are a flat map from path to content (directories are not
    modelled); the trace grows at its end. *)
Record world : Type := mkWorld {
  files : list (string * bytes);
  trace : list event
}.

Definition M (A : Type) : Type := world -> world * result A.

Definition ret {A} (a : A) : M A := fun w => (w, Ok a).

Definition raise {A} (e : exn) : M A := fun w => (w, Err e).

Definition bind {A B} (c : M A) (k : A -> M B) : M B :=
  fun w =>
    match c w with
    | (w', Ok a) => k a w'
    | (w', Err e) => (w', Err e)
    end.

Definition lift {A} (r : result A) : M A := fun w => (w, r).

Definition emit (ev : event) : M unit :=
  fun w => (mkWorld (files w) (trace w ++ [ev]), Ok tt).

Notation "x <- c ;; k" := (bind c (fun x => k))
  (at level 61, c at next level, right associativity).
Notation "c ;;; k" := (bind c (fun _ => k))
  (at level 61, right associativity).

(** The float64 exponential and logarithm as far as the examples need
    them. [numpy.exp] returns exactly 0.0 for every argument at or below
    -746: the real exponential is then smaller than half the smallest
    positive float64, 2^-1075, whose logarithm is about -745.13. Above
    that, and for the logarithm, the real function stands for the
    rounded one. *)
Module Float64.
Definition underflow : R := (-746)%R.

Definition np_exp (v : R) : R :=
  if Rle_dec v underflow then 0%R else exp v.

Definition np_log : R -> R := ln.
End Float64.

(** A two-point instance of the interpolation library, used to run the
    development on concrete inputs: through two samples the not-a-knot
    cubic spline is the straight line through them, kept as
    (x0, y0, slope). *)
Module Line.
Definition spl : Type := (R * R * R)%type.

Definition fit (x y : vector) : result spl :=
  match x, y with
  | [x0; x1], [y0; y1] => Ok (x0, y0, ((y1 - y0) / (x1 - x0))%R)
  | _, _ => Err ValueError
  end.

Definition eval (s : spl) (q : R) (nu : Z) : R :=
  let '(x0, y0, k) := s in
  if nu =? 0 then (y0 + k * (q - x0))%R
  else if nu =? 1 then k
  else 0%R.
End Line.

(** Two rows of the periodic table, for the examples: hydrogen and
    chlorine, looked up by symbol or by atomic number. *)
Module Sample.
Definition element_symbol (v : pyval) : result string :=
  match v with
  | PyInt 1 => Ok "H"
  | PyInt 17 => Ok "Cl"
  | PyStr s =>
      if String.eqb s "H" then Ok "H"
      else if String.eqb s "Cl" then Ok "Cl"
      else Err ValueError
  | _ => Err ValueError
  end.

Definition ones : matrix := mkMatrix 2 [[1; 2]; [3; 4]]%R.
Definition twos : matrix := mkMatrix 2 [[5; 7]; [1; 1]]%R.
Definition tots : matrix := mkMatrix 2 [[10; 14]]%R.

(** A chloride anion on a grid of two points. *)
Definition chloride : SpeciesData :=
  mkSpeciesData "Cl" 17 "aug-ccpwCVQZ" 18 0 0 None None None None
    [1; 2]%R [] [] [] []
    ones twos tots
    default_matrix default_matrix default_matrix
    ones twos tots
    ones twos tots.
End Sample.

(** A record with two alpha orbitals and a single beta orbital. *)
Module OneBeta.
Definition alpha : matrix := mkMatrix 2 [[1; 2]; [3; 4]]%R.
Definition beta : matrix := mkMatrix 2 [[1; 1]]%R.
Definition total : matrix := mkMatrix 2 [[5; 7]]%R.

Definition boron : SpeciesData :=
  mkSpeciesData "B" 5 "aug-ccpwCVQZ" 5 1 0 None None None None
    [1; 2]%R [] [] [] []
    alpha beta total
    default_matrix default_matrix default_matrix
    alpha beta total
    alpha beta total.
End OneBeta.

(** A record whose channels have different numbers of orbitals: two
    alpha rows, three beta rows, on the grid of two points. *)
Module Unrestricted.
Definition alpha : matrix := mkMatrix 2 [[1; 2]; [3; 4]]%R.
Definition beta : matrix := mkMatrix 2 [[1; 1]; [2; 2]; [3; 3]]%R.
Definition total : matrix := mkMatrix 2 [[10; 12]]%R.

Definition lithium : SpeciesData :=
  mkSpeciesData "Li" 3 "aug-ccpwCVQZ" 3 1 0 None None None None
    [1; 2]%R [] [] [] []
    alpha beta total
    default_matrix default_matrix default_matrix
    alpha beta total
    alpha beta total.
End Unrestricted.

Section AtomDB.

(** *** What the embedded files import *)

(** [scipy.interpolate.CubicSpline]: the type of fitted splines, the
    fit (not-a-knot, extrapolating; it raises on a grid it rejects) and
    the value at a point of the derivative of order [nu]. *)
Variable spl : Type.
Variable CubicSpline : vector -> vector -> result spl.
Variable spl_eval : spl -> R -> Z -> R.

(** [numpy.exp] and [numpy.log] on float64 values. They are the real
    functions only up to rounding, and [numpy.exp] gives exactly 0.0
    where the real exponential is too small to be represented, so the
    embedding takes both as they come. *)
Variable np_exp : R -> R.
Variable np_log : R -> R.

(** [atomdb.periodic]: the base class [Element] (its state, its
    initialiser, its [elem] attribute) and the two look-ups. *)
Variable Element : Type.
Variable Element_init : Z -> result Element.
Variable Element_elem : Element -> pyval.
Variable element_symbol : pyval -> result string.
Variable element_number : string -> result Z.

(** [msgpack.packb] and [msgpack.unpackb] with the numpy hooks. *)
Variable packb : SpeciesData -> bytes.
Variable unpackb : bytes -> result SpeciesData.

(** [glob.glob]: the existing paths that match a pattern. *)
Variable glob : list string -> string -> list string.

(* ================================================================== *)
(** ** [DensitySpline] *)

Record DensitySpline : Type := mkDensitySpline {
  _log : bool;
  _obj : spl
}.

(** [DensitySpline.__init__] *)
Definition DensitySpline_init (x y : vector) (log : bool) : M DensitySpline :=
  let y' := if log then map np_log y else y in
  emit (EvCubicSpline x y') ;;;
  obj <- lift (CubicSpline x y') ;;
  ret (mkDensitySpline log obj).

(** [self._obj(x, nu=nu)] on a 1-D array of points. *)
Definition obj_call (obj : spl) (x : vector) (nu : Z) : M vector :=
  emit (EvSplineCall x nu) ;;;
  ret (map (fun q => spl_eval obj q nu) x).

(** [ndarray.flatten] of a 1-D array. *)
Definition flatten (v : vector) : vector := v.

(** [DensitySpline.__call__] *)
Definition DensitySpline_call (self : DensitySpline) (x : vector) (deriv : Z)
  : M vector :=
  if negb ((0 <=? deriv) && (deriv <=? 2)) then raise ValueError
  else if _log self then
    v <- obj_call (_obj self) x 0 ;;
    let y := map np_exp v in
    if deriv =? 1 then
      dlogy <- obj_call (_obj self) x 1 ;;
      ret (vmul (flatten dlogy) y)
    else if deriv =? 2 then
      dlogy <- obj_call (_obj self) x 1 ;;
      d2logy <- obj_call (_obj self) x 2 ;;
      ret (vadd (vmul (flatten d2logy) y)
                (vmul (map (fun d => (d ^ 2)%R) (flatten dlogy)) y))
    else ret y
  else obj_call (_obj self) x deriv.

(* ================================================================== *)
(** ** [Species] *)

Record Species : Type := mkSpecies {
  _dataset : string;
  _data : SpeciesData;
  _spinpol : Z;
  _element : Element
}.

(** The checks of the [spinpol] setter, up to the value it stores. *)
Definition check_spinpol (spinpol : pyval) : result Z :=
  if negb (is_Integral spinpol) then Err TypeError
  else
    rbind (int_of spinpol) (fun spinpol =>
    if negb (Z.abs spinpol =? 1) then Err ValueError
    else Ok spinpol).

(** The [spinpol] setter: the object after the call and the outcome. *)
Definition Species_set_spinpol (self : Species) (spinpol : pyval)
  : Species * result unit :=
  match check_spinpol spinpol with
  | Ok z => (mkSpecies (_dataset self) (_data self) z (_element self), Ok tt)
  | Err e => (self, Err e)
  end.

(** [Species.__init__] *)
Definition Species_init (dataset : string) (fields : SpeciesData)
    (spinpol : pyval) : result Species :=
  let ds := lower dataset in
  rbind (check_spinpol spinpol) (fun z =>
  rbind (Element_init (atnum fields)) (fun el =>
  Ok (mkSpecies ds fields z el))).

Definition Species_dataset (self : Species) : string := _dataset self.

Definition Species_charge (self : Species) : Z :=
  atnum (_data self) - nelec (_data self).

(** The [nspin] property: the product is computed and dropped, the
    body has no [return]. *)
Definition Species_nspin (self : Species) : pyval :=
  let _ := nspin (_data self) * _spinpol self in
  PyNone.

(** The [mult] property: the sum is computed and dropped, the body has
    no [return]. *)
Definition Species_mult (self : Species) : pyval :=
  let _ := nspin (_data self) + 1 in
  PyNone.

Definition Species_spinpol (self : Species) : Z := _spinpol self.

Definition Species_nexc (self : Species) : Z := nexc (_data self).

Definition Species_elem (self : Species) : pyval := Element_elem (_element self).

(** [spin in ("t", "a", "b", "m")] *)
Definition valid_spin (spin : string) : bool :=
  existsb (String.eqb spin) ["t"; "a"; "b"; "m"].

Definition is_None {A} (o : option A) : bool :=
  match o with
  | None => true
  | Some _ => false
  end.

(** [getattr(self._data, name)] *)
Definition getattr (self : Species) (name : string) : M matrix :=
  emit (EvGetattr name) ;;;
  lift (getattr_array (_data self) name).

(** The body of the wrapper made by the [spline] decorator, up to the
    two arguments it passes to [DensitySpline]: the grid and the array
    to interpolate. *)
Definition spline_args (method_name : string) (self : Species)
    (spin : string) (index : option (list Z)) : M (vector * vector) :=
  let name := removesuffix method_name "_func" in
  if negb (valid_spin spin) then raise ValueError
  else
    let name_tot := name ++ "_tot" in
    let '(name_a, name_b) :=
      if Species_spinpol self =? 1
      then ("mo_" ++ name ++ "_a", "mo_" ++ name ++ "_b")
      else ("mo_" ++ name ++ "_b", "mo_" ++ name ++ "_a") in
    arr <- (if (is_None index && String.eqb spin "t")%bool then
              getattr self name_tot
            else if String.eqb spin "t" then
              a <- getattr self name_a ;;
              b <- getattr self name_b ;;
              lift (nd_add a b)
            else if String.eqb spin "a" then
              getattr self name_a
            else if String.eqb spin "b" then
              getattr self name_b
            else if String.eqb spin "m" then
              a <- getattr self name_a ;;
              b <- getattr self name_b ;;
              lift (nd_sub a b)
            else raise UnboundLocalError) ;;
    emit (EvGetattr "rs") ;;;
    sel <- lift (select arr index) ;;
    ret (rs (_data self), sum_axis0 sel).

(** The wrapper itself. *)
Definition spline (method_name : string) (self : Species)
    (spin : string) (index : option (list Z)) : M DensitySpline :=
  xy <- spline_args method_name self spin index ;;
  DensitySpline_init (fst xy) (snd xy) false.

Definition dens_func : Species -> string -> option (list Z) -> M DensitySpline :=
  spline "dens_func".
Definition dd_dens_func : Species -> string -> option (list Z) -> M DensitySpline :=
  spline "dd_dens_func".
Definition ked_func : Species -> string -> option (list Z) -> M DensitySpline :=
  spline "ked_func".

(* ================================================================== *)
(** ** The store: [datafile], [raw_datafile], [dump], [load] *)

(** ["*" if v is Ellipsis else f"{v:03d}"] *)
Definition star_or_03d (v : pyval) : result string :=
  if is_Ellipsis v then Ok "*" else format_03d v.

(** [datafile] *)
Definition datafile (elem charge mult nexc : pyval) (dataset datapath : string)
  : result string :=
  rbind (if is_Ellipsis elem then Ok "*" else element_symbol elem) (fun elem =>
  rbind (star_or_03d charge) (fun charge =>
  rbind (star_or_03d mult) (fun mult =>
  rbind (star_or_03d nexc) (fun nexc =>
  Ok (path_join datapath
        [lower dataset; "db";
         elem ++ "_" ++ charge ++ "_" ++ mult ++ "_" ++ nexc ++ ".msg"]))))).

(** [raw_datafile] *)
Definition raw_datafile (suffix : string) (elem charge mult nexc : pyval)
    (dataset datapath : string) : result string :=
  rbind (if is_Ellipsis elem then Ok "*" else element_symbol elem) (fun elem =>
  rbind (star_or_03d charge) (fun charge =>
  rbind (star_or_03d mult) (fun mult =>
  rbind (star_or_03d nexc) (fun nexc =>
  Ok (path_join datapath
        [lower dataset; "raw";
         elem ++ "_" ++ charge ++ "_" ++ mult ++ "_" ++ nexc ++ suffix]))))).

(** The file objects of [io]. [open] in a binary mode gives a buffered
    reader or writer and in text mode a text wrapper; the raw [FileIO]
    is what [open] gives only when buffering is switched off, which the
    code never asks for. *)
Inductive fileobj : Type :=
| FileIO (fn : string)
| BufferedReader (fn : string)
| BufferedWriter (fn : string)
| TextIOWrapper (fn : string).

Fixpoint lookup_file (fs : list (string * bytes)) (fn : string) : option bytes :=
  match fs with
  | [] => None
  | (k, v) :: fs' => if String.eqb k fn then Some v else lookup_file fs' fn
  end.

Fixpoint store_file (fs : list (string * bytes)) (fn : string) (data : bytes)
  : list (string * bytes) :=
  match fs with
  | [] => [(fn, data)]
  | (k, v) :: fs' =>
      if String.eqb k fn then (k, data) :: fs' else (k, v) :: store_file fs' fn data
  end.

(** [open(fn, mode)] for the modes the code uses: ["wb"] creates or
    truncates the file, ["rb"] and text mode ["r"] need it to exist. *)
Definition py_open (fn mode : string) : M fileobj :=
  emit (EvOpen fn mode) ;;;
  fun w =>
    if String.eqb mode "wb" then
      (mkWorld (store_file (files w) fn []) (trace w), Ok (BufferedWriter fn))
    else
      match lookup_file (files w) fn with
      | None => (w, Err FileNotFoundError)
      | Some _ =>
          if String.eqb mode "rb" then (w, Ok (BufferedReader fn))
          else if String.eqb mode "r" then (w, Ok (TextIOWrapper fn))
          else (w, Err ValueError)
      end.

(** [f.write(data)] with [data] a [bytes] object. *)
Definition file_write (f : fileobj) (data : bytes) : M unit :=
  match f with
  | BufferedWriter fn =>
      fun w =>
        match lookup_file (files w) fn with
        | Some old => (mkWorld (store_file (files w) fn (old ++ data)%list) (trace w), Ok tt)
        | None => (mkWorld (store_file (files w) fn data) (trace w), Ok tt)
        end
  | TextIOWrapper _ => raise TypeError
  | FileIO _ | BufferedReader _ => raise ValueError
  end.

(** [f.readall()]: a method of the raw [FileIO] only; the buffered and
    the text objects have no attribute of that name. *)
Definition file_readall (f : fileobj) : M bytes :=
  match f with
  | FileIO fn =>
      fun w =>
        match lookup_file (files w) fn with
        | Some data => (w, Ok data)
        | None => (w, Err ValueError)
        end
  | BufferedReader _ | BufferedWriter _ | TextIOWrapper _ => raise AttributeError
  end.

(** [dump], over the species it is given, in order. *)
Fixpoint dump (species : list Species) (datapath : string) : M unit :=
  match species with
  | [] => ret tt
  | s :: species' =>
      fn <- lift (datafile (Species_elem s) (PyInt (Species_charge s))
                    (Species_mult s) (PyInt (Species_nexc s))
                    (Species_dataset s) datapath) ;;
      f <- py_open fn "wb" ;;
      file_write f (packb (_data s)) ;;;
      dump species' datapath
  end.

(** What [load] returns: one record for an exact key, a list for a key
    with a wildcard. *)
Inductive loaded : Type :=
| LoadedOne (s : Species)
| LoadedMany (l : list Species).

(** The loop of [load] over the files that match the pattern. *)
Fixpoint load_files (dataset : string) (fns : list string) (obj : list Species)
  : M (list Species) :=
  match fns with
  | [] => ret obj
  | file :: fns' =>
      f <- py_open file "rb" ;;
      data <- file_readall f ;;
      fields <- lift (unpackb data) ;;
      s <- lift (Species_init dataset fields (PyInt 1)) ;;
      load_files dataset fns' (obj ++ [s])%list
  end.

(** [load] *)
Definition load (elem charge mult nexc : pyval) (dataset datapath : string)
  : M loaded :=
  fn <- lift (datafile elem charge mult nexc dataset datapath) ;;
  if existsb is_Ellipsis [elem; charge; mult; nexc] then
    names <- (fun w => (w, Ok (glob (map fst (files w)) fn))) ;;
    obj <- load_files dataset names [] ;;
    ret (LoadedMany obj)
  else
    f <- py_open fn "r" ;;
    data <- file_readall f ;;
    fields <- lift (unpackb data) ;;
    s <- lift (Species_init dataset fields (PyInt 1)) ;;
    ret (LoadedOne s).

(* ================================================================== *)
(** ** The compile routine of the [hci_augccpwcvqz] dataset *)

(** Everything [run] does from its first read of a raw file on (the
    wavefunction and CI files through iodata and numpy, the densities
    through gbasis, the [Species] it builds), with the values [run] has
    computed by then. *)
Variable hci_pipeline :
  string -> Z -> Z -> Z -> Z -> Z -> Z -> Z -> Z -> string -> string -> M Species.

Definition BASIS : string := "aug-ccpwCVQZ".

(** [run] *)
Definition run (elem : pyval) (charge mult nexc : Z) (dataset datapath : string)
  : M Species :=
  (* Check arguments *)
  if negb (nexc =? 0) then raise ValueError
  else
    (* Set up internal variables *)
    elem <- (emit (EvExternal "atomdb.element_symbol") ;;;
             lift (element_symbol elem)) ;;
    natom <- (emit (EvExternal "atomdb.element_number") ;;;
              lift (element_number elem)) ;;
    let nelec := natom - charge in
    let nspin := mult - 1 in
    let n_up := (nelec + nspin) / 2 in
    let n_dn := (nelec - nspin) / 2 in
    hci_pipeline elem natom nelec nspin n_up n_dn charge mult nexc dataset datapath.

(* ================================================================== *)
(** ** The words of the specification *)

(** The stored arrays an accessor works on, as the specification names
    them: the alpha channel, the beta channel and the total. *)
Definition stored_arrays (method_name : string) (d : SpeciesData)
  : option (matrix * matrix * matrix) :=
  if String.eqb method_name "dens_func"
  then Some (mo_dens_a d, mo_dens_b d, dens_tot d)
  else if String.eqb method_name "dd_dens_func"
  then Some (mo_dd_dens_a d, mo_dd_dens_b d, dd_dens_tot d)
  else if String.eqb method_name "ked_func"
  then Some (mo_ked_a d, mo_ked_b d, ked_tot d)
  else None.

(** The channel the accessors call "a" and the one they call "b": the
    stored alpha and beta arrays, exchanged unless [spinpol] is 1. *)
Definition channels (spinpol : Z) (alpha beta : matrix) : matrix * matrix :=
  if spinpol =? 1 then (alpha, beta) else (beta, alpha).

(** The array an accessor selects, as a function of the stored arrays,
    before the rows are selected and added up. *)
Definition chosen_array (spinpol : Z) (A B T : matrix) (spin : string)
    (index : option (list Z)) : result matrix :=
  let '(a, b) := channels spinpol A B in
  if (is_None index && String.eqb spin "t")%bool then Ok T
  else if String.eqb spin "t" then nd_add a b
  else if String.eqb spin "a" then Ok a
  else if String.eqb spin "b" then Ok b
  else if String.eqb spin "m" then nd_sub a b
  else Err UnboundLocalError.

(** A path component that [os.path.join] joins to its neighbours with
    exactly one separator: not empty, no slash at either end. *)
Definition plain_component (s : string) : Prop :=
  s <> "" /\ startswith "/" s = false /\ endswith "/" s = false.

Definition is_digit (c : ascii) : bool :=
  let n := nat_of_ascii c in (Nat.leb 48 n && Nat.leb n 57)%bool.

(** A string of exactly three decimal digits. *)
Definition three_digit (s : string) : bool :=
  match s with
  | String a (String b (String c EmptyString)) =>
      (is_digit a && is_digit b && is_digit c)%bool
  | _ => false
  end.

(** The number a string of three digits denotes. *)
Definition value3 (s : string) : Z :=
  match s with
  | String a (String b (String c EmptyString)) =>
      100 * (Z.of_nat (nat_of_ascii a) - 48)
      + 10 * (Z.of_nat (nat_of_ascii b) - 48)
      + (Z.of_nat (nat_of_ascii c) - 48)
  | _ => 0
  end.

(** The three digits of a number from 0 to 999, and the two digits of a
    number from 0 to 99. *)
Definition three_digits (z : Z) : string :=
  String (digit_char (z / 100))
    (String (digit_char (z / 10 mod 10)) (String (digit_char (z mod 10)) "")).

Definition two_digits (z : Z) : string :=
  String (digit_char (z / 10)) (String (digit_char (z mod 10)) "").

(** Two arrays of one shape. *)
Definition same_shape (a b : matrix) : Prop :=
  nrows a = nrows b /\ ncols a = ncols b.

(* ================================================================== *)
(** ** [compile] *)

(** [importlib.import_module] followed by the look-up of [run] in the
    module it returns: the compile routine of the named module, or the
    error of the import or of the look-up. *)
Variable import_module :
  string -> result (pyval -> Z -> Z -> Z -> string -> string -> M Species).

(** [os.makedirs(path, exist_ok=True)]: directories are not part of the
    world, the call is only recorded. *)
Definition makedirs (path : string) : M unit :=
  emit (EvExternal "os.makedirs").

(** [compile] *)
Definition compile (elem : pyval) (charge mult nexc : Z)
    (dataset datapath : string) : M unit :=
  (* Ensure directories exist *)
  makedirs (path_join datapath [lower dataset; "db"]) ;;;
  makedirs (path_join datapath [lower dataset; "raw"]) ;;;
  (* Import the compile script for the appropriate dataset *)
  submodule_run <- lift (import_module ("atomdb.datasets." ++ dataset ++ ".run")) ;;
  (* Compile the Species instance and dump the database entry *)
  species <- submodule_run elem charge mult nexc dataset datapath ;;
  dump [species] datapath.

(* ================================================================== *)
(** ** Reading keys and indices *)

(** The number a string of decimal digits denotes, most significant
    digit first, continuing from [acc]. *)
Fixpoint value_acc (s : string) (acc : Z) : Z :=
  match s with
  | EmptyString => acc
  | String c s' => value_acc s' (10 * acc + (Z.of_nat (nat_of_ascii c) - 48))
  end.

(** The integer a field of a file name denotes: an optional minus sign,
    then digits. *)
Definition parse_int (s : string) : Z :=
  match s with
  | String c s' => if Ascii.eqb c "-" then - value_acc s' 0 else value_acc s 0
  | EmptyString => 0
  end.

(** A value that [datafile] accepts in a numeric field: an integer, a
    boolean or the wildcard. *)
Definition key_field_ok (v : pyval) : bool :=
  (is_Integral v || is_Ellipsis v)%bool.

(** An integer that indexes an axis of length [n]. *)
Definition in_range (n : nat) (i : Z) : Prop :=
  - Z.of_nat n <= i < Z.of_nat n.

(** The indices of all rows of an axis of length [n], in order. *)
Definition all_rows (n : nat) : list Z := map Z.of_nat (seq 0 n).

(** The species with the other spin polarisation. *)
Definition flipped (self : Species) : Species :=
  mkSpecies (_dataset self) (_data self) (- _spinpol self) (_element self).

(** The array the accessors call channel "a" and the one they call "b". *)
Definition channel_a (self : Species) (A B : matrix) : matrix :=
  fst (channels (_spinpol self) A B).
Definition channel_b (self : Species) (A B : matrix) : matrix :=
  snd (channels (_spinpol self) A B).

(** All characters of a string satisfy a test. *)
Fixpoint all_chars (P : ascii -> bool) (s : string) : bool :=
  match s with
  | EmptyString => true
  | String c s' => (P c && all_chars P s')%bool
  end.

(** The characters of a formatted number: the minus sign and digits. *)
Definition key_char (c : ascii) : bool :=
  (is_digit c || Ascii.eqb c "-")%bool.

(* ================================================================== *)
(** * Properties *)

Ltac monad_unfold :=
  unfold bind, ret, raise, lift, emit, obj_call in *.

(** ** Lists and arrays *)

Lemma map2_map_map {A B C D} (f : B -> C -> D) (g : A -> B) (h : A -> C)
    (l : list A) :
  map2 f (map g l) (map h l) = map (fun a => f (g a) (h a)) l.
Proof.
  induction l as [|a l IH]; cbn; [reflexivity|].
  now rewrite IH.
Qed.

Lemma map2_length {A B C} (f : A -> B -> C) (l1 : list A) (l2 : list B) :
  length l1 = length l2 -> length (map2 f l1 l2) = length l1.
Proof.
  revert l2; induction l1 as [|a l1 IH]; intros [|b l2] H; cbn in *;
    try discriminate; auto.
Qed.

(** ** [DensitySpline] *)

(** A spline object that [__init__] returns holds the flag it was given
    and the fit of the samples (of their logarithms in log mode). *)
Lemma DensitySpline_init_inv (x y : vector) (log : bool) (w w' : world)
    (sp : DensitySpline) :
  DensitySpline_init x y log w = (w', Ok sp) ->
  _log sp = log /\
  CubicSpline x (if log then map np_log y else y) = Ok (_obj sp).
Proof.
  unfold DensitySpline_init; monad_unfold; cbn. intros H.
  match type of H with
  | match ?c with _ => _ end = _ => destruct c as [obj|e] eqn:E
  end; inversion H; subst; cbn; split; solve [reflexivity | exact E].
Qed.

(** Why the log-mode formulas are the derivatives of the reconstructed
    function [exp(spline(x))]: wherever the first derivative the spline
    reports is the derivative of its value, the [deriv=1] formula is
    the derivative of the reconstruction. *)
Lemma log_first_derivative_sound (obj : spl) (p : R) :
  derivable_pt_lim (fun t => spl_eval obj t 0) p (spl_eval obj p 1) ->
  derivable_pt_lim (fun t => exp (spl_eval obj t 0)) p
    (spl_eval obj p 1 * exp (spl_eval obj p 0))%R.
Proof.
  intros H.
  pose proof (derivable_pt_lim_comp (fun t => spl_eval obj t 0) exp p
                (spl_eval obj p 1) (exp (spl_eval obj p 0)) H
                (derivable_pt_lim_exp (spl_eval obj p 0))) as D.
  rewrite Rmult_comm. exact D.
Qed.

(** And wherever, around the point, the reported first derivative is
    the derivative of the value and the reported second derivative is
    the derivative of the first, the [deriv=2] formula is the
    derivative of the [deriv=1] formula. *)
Lemma log_second_derivative_sound (obj : spl) (p : R) :
  derivable_pt_lim (fun t => spl_eval obj t 0) p (spl_eval obj p 1) ->
  derivable_pt_lim (fun t => spl_eval obj t 1) p (spl_eval obj p 2) ->
  derivable_pt_lim
    (fun t => (spl_eval obj t 1 * exp (spl_eval obj t 0))%R) p
    (spl_eval obj p 2 * exp (spl_eval obj p 0)
     + (spl_eval obj p 1) ^ 2 * exp (spl_eval obj p 0))%R.
Proof.
  intros H1 H2.
  pose proof (derivable_pt_lim_mult
                (fun t => spl_eval obj t 1)
                (fun t => exp (spl_eval obj t 0)) p _ _
                H2 (log_first_derivative_sound obj p H1)) as D.
  unfold mult_fct in D.
  replace (spl_eval obj p 2 * exp (spl_eval obj p 0)
           + spl_eval obj p 1 ^ 2 * exp (spl_eval obj p 0))%R
    with (spl_eval obj p 2 * exp (spl_eval obj p 0)
          + spl_eval obj p 1
            * (spl_eval obj p 1 * exp (spl_eval obj p 0)))%R
    by (simpl; ring).
  exact D.
Qed.

(** C3. A spline built in log mode returns, for [deriv=1], the first
    derivative of the fitted log-domain spline times the reconstructed
    value [np.exp(spline(x))], and for [deriv=2] the second derivative times
    that value plus the squared first derivative times that value, at
    every query point. *)
Theorem log_spline_chain_rule (x y : vector) (w0 w1 : world) (sp : DensitySpline) :
  DensitySpline_init x y true w0 = (w1, Ok sp) ->
  CubicSpline x (map np_log y) = Ok (_obj sp) /\
  forall (q : vector) (w : world),
    let s := spl_eval (_obj sp) in
    snd (DensitySpline_call sp q 1 w)
      = Ok (map (fun p => (s p 1%Z * np_exp (s p 0%Z))%R) q) /\
    snd (DensitySpline_call sp q 2 w)
      = Ok (map (fun p => (s p 2%Z * np_exp (s p 0%Z)
                           + (s p 1%Z) ^ 2 * np_exp (s p 0%Z))%R) q).
Proof.
  intros H. apply DensitySpline_init_inv in H. destruct H as [Hlog Hfit].
  split; [exact Hfit|].
  intros q w s. unfold DensitySpline_call. rewrite Hlog.
  monad_unfold; cbn. unfold vadd, vmul, flatten.
  split.
  - rewrite map_map. now rewrite map2_map_map.
  - rewrite !map_map. rewrite !map2_map_map. reflexivity.
Qed.

(** C9, as the code has it. A spline built in log mode returns, for
    [deriv=0], [np.exp] of the fitted log-domain spline at every query
    point, inside the sampled range or not. With an exponential that is
    never negative, and positive above a threshold, every returned value
    is non-negative, and strictly positive at the query points where the
    fitted value lies above the threshold. *)
Theorem log_spline_nonnegative (threshold : R) (x y : vector)
    (w0 w1 : world) (sp : DensitySpline) :
  (forall v : R, (0 <= np_exp v)%R) ->
  (forall v : R, (threshold < v)%R -> (0 < np_exp v)%R) ->
  DensitySpline_init x y true w0 = (w1, Ok sp) ->
  CubicSpline x (map np_log y) = Ok (_obj sp) /\
  forall (q : vector) (w : world),
    exists v : vector,
      snd (DensitySpline_call sp q 0 w) = Ok v /\
      v = map (fun p => np_exp (spl_eval (_obj sp) p 0)) q /\
      Forall (fun r => (0 <= r)%R) v /\
      (Forall (fun p => (threshold < spl_eval (_obj sp) p 0)%R) q ->
       Forall (fun r => (0 < r)%R) v).
Proof.
  intros Hnn Hpos H. apply DensitySpline_init_inv in H.
  destruct H as [Hlog Hfit].
  split; [exact Hfit|].
  intros q w. eexists. unfold DensitySpline_call. rewrite Hlog.
  monad_unfold; cbn. rewrite map_map.
  split; [reflexivity|]. split; [reflexivity|]. split.
  - apply Forall_forall. intros r Hr. apply in_map_iff in Hr.
    destruct Hr as [p [<- _]]. apply Hnn.
  - intros Hq. rewrite Forall_forall in Hq.
    apply Forall_forall. intros r Hr. apply in_map_iff in Hr.
    destruct Hr as [p [<- Hp]]. apply Hpos, Hq, Hp.
Qed.

(** C4. A derivative order outside {0, 1, 2} makes the call of a
    spline raise [ValueError], and a spin selector outside
    {"t", "a", "b", "m"} makes each of the three accessors raise
    [ValueError]; in both cases the world is left as it was: nothing was
    read, built or evaluated. *)
Theorem invalid_arguments_rejected :
  (forall (self : DensitySpline) (x : vector) (deriv : Z) (w : world),
      ~ (0 <= deriv <= 2) ->
      DensitySpline_call self x deriv w = (w, Err ValueError)) /\
  (forall (self : Species) (spin : string) (index : option (list Z)) (w : world),
      ~ In spin ["t"; "a"; "b"; "m"] ->
      dens_func self spin index w = (w, Err ValueError) /\
      dd_dens_func self spin index w = (w, Err ValueError) /\
      ked_func self spin index w = (w, Err ValueError)).
Proof.
  split.
  - intros self x deriv w H. unfold DensitySpline_call.
    destruct ((0 <=? deriv) && (deriv <=? 2))%bool eqn:E; [|reflexivity].
    apply andb_true_iff in E. destruct E as [E1 E2].
    apply Z.leb_le in E1. apply Z.leb_le in E2. exfalso. apply H. lia.
  - intros self spin index w H.
    assert (Hv : valid_spin spin = false).
    { unfold valid_spin.
      destruct (existsb (String.eqb spin) ["t"; "a"; "b"; "m"]) eqn:E; [|reflexivity].
      apply existsb_exists in E. destruct E as [s [Hin Heq]].
      apply String.eqb_eq in Heq. subst s. contradiction. }
    unfold dens_func, dd_dens_func, ked_func, spline, spline_args.
    rewrite Hv. cbn. monad_unfold. auto.
Qed.

(** ** The compile routine of the dataset *)

(** C7. With a nonzero excitation index [run] raises [ValueError], and
    it does so first: the world is left as it was (no look-up, no raw
    file read), whatever the rest of the routine would do. *)
Theorem run_rejects_nonzero_nexc (elem : pyval) (charge mult nexc : Z)
    (dataset datapath : string) (w : world) :
  nexc <> 0 ->
  run elem charge mult nexc dataset datapath w = (w, Err ValueError).
Proof.
  intros H. unfold run.
  destruct (nexc =? 0) eqn:E; [apply Z.eqb_eq in E; contradiction|].
  reflexivity.
Qed.

(** ** [Species] *)

(** C2. The [mult] property of every species evaluates to [None], not
    to the multiplicity |nspin| + 1 of its docstring. *)
Theorem Species_mult_is_None (self : Species) :
  Species_mult self = PyNone /\
  Species_mult self <> PyInt (Z.abs (nspin (_data self)) + 1).
Proof.
  split; [reflexivity|]. unfold Species_mult. discriminate.
Qed.

Lemma check_spinpol_unit (v : pyval) (z : Z) :
  check_spinpol v = Ok z -> z = 1 \/ z = -1.
Proof.
  unfold check_spinpol.
  destruct (is_Integral v); cbn; [|discriminate].
  destruct (int_of v) as [k|e]; cbn; [|discriminate].
  destruct (Z.abs k =? 1) eqn:E; cbn; [|discriminate].
  intros H; inversion H; subst. apply Z.eqb_eq in E. lia.
Qed.

(** C10. An assignment to [spinpol] that succeeds stores the integer 1
    or -1; every integral value of absolute value 1 is accepted and
    stored as that integer ([True] as 1); a value that is not integral is
    rejected with [TypeError] and an integral value of another magnitude
    with [ValueError]; a rejected assignment leaves the species as it
    was; the assignment made by the constructor obeys the same rule. *)
Theorem spinpol_setter_spec (self : Species) (v : pyval) :
  (forall self', Species_set_spinpol self v = (self', Ok tt) ->
     _spinpol self' = 1 \/ _spinpol self' = -1) /\
  (forall z, is_Integral v = true -> int_of v = Ok z -> Z.abs z = 1 ->
     Species_set_spinpol self v
       = (mkSpecies (_dataset self) (_data self) z (_element self), Ok tt)) /\
  (v = PyBool true ->
     _spinpol (fst (Species_set_spinpol self v)) = 1) /\
  (is_Integral v = false ->
     Species_set_spinpol self v = (self, Err TypeError)) /\
  (forall z, is_Integral v = true -> int_of v = Ok z -> Z.abs z <> 1 ->
     Species_set_spinpol self v = (self, Err ValueError)) /\
  (forall self' e, Species_set_spinpol self v = (self', Err e) -> self' = self) /\
  (forall dataset fields s, Species_init dataset fields v = Ok s ->
     _spinpol s = 1 \/ _spinpol s = -1).
Proof.
  unfold Species_set_spinpol.
  repeat split.
  - intros self' H.
    destruct (check_spinpol v) as [z|e] eqn:E; inversion H; subst; cbn.
    eapply check_spinpol_unit; eassumption.
  - intros z Hi Hz Ha. unfold check_spinpol. rewrite Hi, Hz. cbn.
    apply Z.eqb_eq in Ha. now rewrite Ha.
  - intros ->. reflexivity.
  - intros Hi. unfold check_spinpol. now rewrite Hi.
  - intros z Hi Hz Ha. unfold check_spinpol. rewrite Hi, Hz. cbn.
    apply Z.eqb_neq in Ha. now rewrite Ha.
  - intros self' e H.
    destruct (check_spinpol v) as [z|e'] eqn:E; inversion H; subst; reflexivity.
  - intros dataset fields s. unfold Species_init.
    destruct (check_spinpol v) as [z|e] eqn:E; cbn; [|discriminate].
    destruct (Element_init (atnum fields)) as [el|e]; cbn; [|discriminate].
    intros H; inversion H; subst; cbn.
    eapply check_spinpol_unit; eassumption.
Qed.

(** ** Sums over the orbital axis *)

Lemma stretch_same {A} (n : nat) (l : list A) :
  length l = n -> stretch n l = l.
Proof.
  destruct l as [|x [|y l]]; cbn; intros; subst; reflexivity.
Qed.

Lemma bdim_same (n : nat) : bdim n n = Some n.
Proof. unfold bdim. now rewrite Nat.eqb_refl. Qed.

Lemma map2_stretch_rows (op : R -> R -> R) (n : nat) (ra rb : list vector) :
  Forall (fun r => length r = n) ra ->
  Forall (fun r => length r = n) rb ->
  map2 (fun u v => map2 op (stretch n u) (stretch n v)) ra rb
    = map2 (map2 op) ra rb.
Proof.
  intros Ha. revert rb. induction Ha as [|u ra Hu Ha IH]; intros rb Hb.
  - reflexivity.
  - destruct Hb as [|v rb Hv Hb]; cbn; [reflexivity|].
    rewrite (stretch_same n u Hu), (stretch_same n v Hv). now rewrite IH.
Qed.

(** On two arrays of one shape an operator works row by row, element by
    element. *)
Lemma broadcast2_same_shape (op : R -> R -> R) (a b : matrix) :
  wf_matrix a -> wf_matrix b -> same_shape a b ->
  broadcast2 op a b
    = Ok (mkMatrix (ncols a) (map2 (map2 op) (rows a) (rows b))).
Proof.
  intros Ha Hb [Hr Hc]. unfold broadcast2.
  rewrite <- Hr, <- Hc, !bdim_same.
  unfold nrows in Hr.
  rewrite (stretch_same (nrows a) (rows a) eq_refl).
  rewrite (stretch_same (nrows a) (rows b)) by (symmetry; exact Hr).
  rewrite map2_stretch_rows; [reflexivity| exact Ha |].
  unfold wf_matrix in Hb. now rewrite <- Hc in Hb.
Qed.

Section Interchange.

(** An operator that commutes with addition: [+] and [-] do. *)
Variable op : R -> R -> R.
Hypothesis op_add : forall a b c d : R,
  (op a b + op c d = op (a + c) (b + d))%R.
Hypothesis op_zero : op 0%R 0%R = 0%R.

Lemma vadd_map2_op (u v r s : vector) :
  vadd (map2 op u v) (map2 op r s) = map2 op (vadd u r) (vadd v s).
Proof.
  unfold vadd. revert v r s.
  induction u as [|a u IH]; intros [|b v] [|c r] [|d s]; cbn; try reflexivity.
  now rewrite op_add, IH.
Qed.

Lemma fold_vadd_map2_op (ra rb : list vector) (u v : vector) :
  length ra = length rb ->
  fold_left vadd (map2 (map2 op) ra rb) (map2 op u v)
    = map2 op (fold_left vadd ra u) (fold_left vadd rb v).
Proof.
  revert rb u v. induction ra as [|r ra IH]; intros [|s rb] u v H; cbn in *;
    try discriminate; [reflexivity|].
  rewrite vadd_map2_op. apply IH. now inversion H.
Qed.

Lemma map2_op_zeros (n : nat) :
  map2 op (repeat 0%R n) (repeat 0%R n) = repeat 0%R n.
Proof.
  induction n as [|n IH]; cbn; [reflexivity|]. now rewrite op_zero, IH.
Qed.

(** The sum over the rows of [a op b] is [op] of the two sums. *)
Lemma sum_axis0_map2_op (n : nat) (ra rb : list vector) :
  length ra = length rb ->
  sum_axis0 (mkMatrix n (map2 (map2 op) ra rb))
    = map2 op (sum_axis0 (mkMatrix n ra)) (sum_axis0 (mkMatrix n rb)).
Proof.
  intros H. unfold sum_axis0; cbn.
  rewrite <- (map2_op_zeros n) at 1. now apply fold_vadd_map2_op.
Qed.

End Interchange.

Lemma norm_index_lt (n : nat) (i : Z) (k : nat) :
  norm_index n i = Ok k -> (k < n)%nat.
Proof.
  unfold norm_index.
  destruct ((0 <=? i) && (i <? Z.of_nat n))%bool eqn:E1.
  - intros H; inversion H; subst. apply andb_true_iff in E1. lia.
  - destruct ((- Z.of_nat n <=? i) && (i <? 0))%bool eqn:E2; [|discriminate].
    intros H; inversion H; subst. apply andb_true_iff in E2. lia.
Qed.

Lemma nth_map2 {A B C} (f : A -> B -> C) (la : list A) (lb : list B)
    (da : A) (db : B) (dc : C) (k : nat) :
  length la = length lb -> (k < length la)%nat ->
  nth k (map2 f la lb) dc = f (nth k la da) (nth k lb db).
Proof.
  revert lb k. induction la as [|a la IH]; intros [|b lb] k H Hk; cbn in *;
    try discriminate; try lia.
  destruct k as [|k]; [reflexivity|]. apply IH; [now inversion H | lia].
Qed.

(** Selecting rows of [a op b] selects the same rows of [a] and of [b]. *)
Lemma take_rows_list_map2 (f : vector -> vector -> vector)
    (ra rb : list vector) (idx : list Z) (ta tb : list vector) :
  length ra = length rb ->
  take_rows_list ra idx = Ok ta ->
  take_rows_list rb idx = Ok tb ->
  take_rows_list (map2 f ra rb) idx = Ok (map2 f ta tb) /\
  length ta = length tb.
Proof.
  intros Hlen. revert ta tb.
  induction idx as [|i idx IH]; intros ta tb Ha Hb; cbn in *.
  - inversion Ha; inversion Hb; subst. split; reflexivity.
  - rewrite map2_length by exact Hlen. rewrite <- Hlen in Hb.
    destruct (norm_index (length ra) i) as [k|e] eqn:Ek; cbn in *; [|discriminate].
    destruct (take_rows_list ra idx) as [ta'|e] eqn:Ea; cbn in *; [|discriminate].
    destruct (take_rows_list rb idx) as [tb'|e] eqn:Eb; cbn in *; [|discriminate].
    destruct (IH ta' tb' eq_refl eq_refl) as [IH1 IH2].
    rewrite IH1; cbn. inversion Ha; inversion Hb; subst; cbn.
    rewrite (nth_map2 f ra rb [] [] []); [|exact Hlen|eapply norm_index_lt; exact Ek].
    split; [reflexivity|]. now rewrite IH2.
Qed.

Lemma stored_arrays_inv (method_name : string) (d : SpeciesData)
    (A B T : matrix) :
  stored_arrays method_name d = Some (A, B, T) ->
  (method_name = "dens_func" /\
   A = mo_dens_a d /\ B = mo_dens_b d /\ T = dens_tot d) \/
  (method_name = "dd_dens_func" /\
   A = mo_dd_dens_a d /\ B = mo_dd_dens_b d /\ T = dd_dens_tot d) \/
  (method_name = "ked_func" /\
   A = mo_ked_a d /\ B = mo_ked_b d /\ T = ked_tot d).
Proof.
  unfold stored_arrays.
  destruct (String.eqb method_name "dens_func") eqn:E1;
    [apply String.eqb_eq in E1; intros H; inversion H; subst;
     left; repeat split|].
  destruct (String.eqb method_name "dd_dens_func") eqn:E2;
    [apply String.eqb_eq in E2; intros H; inversion H; subst;
     right; left; repeat split|].
  destruct (String.eqb method_name "ked_func") eqn:E3;
    [apply String.eqb_eq in E3; intros H; inversion H; subst;
     right; right; repeat split|].
  discriminate.
Qed.

(** What an accessor passes to [DensitySpline], without the trace. *)
Lemma spline_args_result (method_name : string) (self : Species)
    (spin : string) (index : option (list Z)) (w : world) (A B T : matrix) :
  stored_arrays method_name (_data self) = Some (A, B, T) ->
  snd (spline_args method_name self spin index w)
    = if negb (valid_spin spin) then Err ValueError
      else
        rbind (chosen_array (_spinpol self) A B T spin index) (fun arr =>
        rbind (select arr index) (fun sel =>
        Ok (rs (_data self), sum_axis0 sel))).
Proof.
  intros H. apply stored_arrays_inv in H.
  unfold spline_args, chosen_array, channels, Species_spinpol, nd_add, nd_sub.
  destruct (valid_spin spin); cbn [negb]; [|reflexivity].
  destruct H as [[-> [-> [-> ->]]] | [[-> [-> [-> ->]]] | [-> [-> [-> ->]]]]];
    destruct (_spinpol self =? 1);
    destruct (is_None index); cbn [andb];
    destruct (String.eqb spin "t");
    try (destruct (String.eqb spin "a"));
    try (destruct (String.eqb spin "b"));
    try (destruct (String.eqb spin "m"));
    unfold getattr; monad_unfold; cbn;
    repeat match goal with
           | |- context [broadcast2 ?op ?a ?b] =>
               destruct (broadcast2 op a b); cbn
           | |- context [select ?a ?i] => destruct (select a i); cbn
           end; reflexivity.
Qed.

Lemma fold_vadd_length (n : nat) (rws : list vector) (acc : vector) :
  Forall (fun r => length r = n) rws -> length acc = n ->
  length (fold_left vadd rws acc) = n.
Proof.
  intros H. revert acc. induction H as [|r rws Hr H IH]; intros acc Ha; cbn.
  - exact Ha.
  - apply IH. unfold vadd. rewrite map2_length; congruence.
Qed.

(** The sum over the rows has one entry per grid point. *)
Lemma sum_axis0_length (m : matrix) :
  wf_matrix m -> length (sum_axis0 m) = ncols m.
Proof.
  intros H. unfold sum_axis0. apply fold_vadd_length; [exact H|].
  apply repeat_length.
Qed.

Lemma take_rows_list_wf (n : nat) (rws : list vector) (idx : list Z)
    (sel : list vector) :
  Forall (fun r => length r = n) rws ->
  take_rows_list rws idx = Ok sel ->
  Forall (fun r => length r = n) sel.
Proof.
  intros H. revert sel. induction idx as [|i idx IH]; intros sel Hs; cbn in *.
  - inversion Hs; subst. constructor.
  - destruct (norm_index (length rws) i) as [k|e] eqn:Ek; cbn in *; [|discriminate].
    destruct (take_rows_list rws idx) as [sel'|e]; cbn in *; [|discriminate].
    inversion Hs; subst. constructor; [|now apply IH].
    apply norm_index_lt in Ek.
    rewrite Forall_forall in H. apply H. now apply nth_In.
Qed.

Lemma select_wf (m sel : matrix) (index : option (list Z)) :
  wf_matrix m -> select m index = Ok sel ->
  wf_matrix sel /\ ncols sel = ncols m.
Proof.
  intros H. destruct index as [idx|]; cbn.
  - unfold take_rows.
    destruct (take_rows_list (rows m) idx) as [rws|e] eqn:E; cbn; [|discriminate].
    intros Hs; inversion Hs; subst. split; [|reflexivity].
    unfold wf_matrix; cbn. eapply take_rows_list_wf; eassumption.
  - intros Hs; inversion Hs; subst. auto.
Qed.



Lemma Rminus_interchange (p q r s : R) :
  (p - q + (r - s) = p + r - (q + s))%R.
Proof. lra. Qed.


(** ** The spline accessors *)






(** ** Paths and numbers *)

Lemma append_assoc (a b c : string) : (a ++ b) ++ c = a ++ b ++ c.
Proof. induction a as [|x a IH]; cbn; [reflexivity|now rewrite IH]. Qed.

Lemma append_nonempty_r (a b : string) : b <> "" -> a ++ b <> "".
Proof. destruct a; cbn; [auto|discriminate]. Qed.

Lemma eqb_empty_false (s : string) : s <> "" -> String.eqb s "" = false.
Proof. intros H. now apply String.eqb_neq. Qed.

Lemma endswith_slash_app (a b : string) :
  b <> "" -> endswith "/" (a ++ b) = endswith "/" b.
Proof.
  intros Hb. induction a as [|c a IH]; [reflexivity|].
  cbn [append endswith]. rewrite IH.
  assert (E : String.eqb (String c (a ++ b)) "/" = false).
  { apply String.eqb_neq. intros H. inversion H as [[Hc Ht]].
    now apply (append_nonempty_r a b Hb). }
  now rewrite E.
Qed.

Lemma startswith_slash_app (a b : string) :
  b <> "" -> startswith "/" b = false -> startswith "/" a = false ->
  startswith "/" (a ++ b) = false.
Proof.
  intros Hb Hsb Hsa. destruct a as [|c a]; [exact Hsb|].
  cbn [append startswith] in *. exact Hsa.
Qed.

(** Joining plain components puts one separator between them. *)
Lemma path_join_plain (datapath ds name : string) :
  datapath <> "" -> endswith "/" datapath = false ->
  plain_component ds ->
  startswith "/" name = false ->
  path_join datapath [ds; "db"; name]
    = datapath ++ "/" ++ ds ++ "/db/" ++ name.
Proof.
  intros Hne Hend [Hds [Hst Hen]] Hname.
  cbn [path_join]. rewrite Hst.
  rewrite (eqb_empty_false _ Hne), Hend. cbn [orb].
  change (startswith "/" "db") with false. cbn iota.
  assert (E1 : String.eqb (datapath ++ "/" ++ ds) "" = false).
  { apply eqb_empty_false, append_nonempty_r. discriminate. }
  assert (E2 : endswith "/" (datapath ++ "/" ++ ds) = false).
  { rewrite endswith_slash_app by discriminate.
    change ("/" ++ ds) with (String "/" ds). cbn [endswith].
    rewrite Hen. rewrite orb_false_r. apply String.eqb_neq.
    intros H. inversion H. contradiction. }
  rewrite E1, E2. cbn [orb]. rewrite Hname.
  assert (E3 : String.eqb ((datapath ++ "/" ++ ds) ++ "/" ++ "db") "" = false).
  { apply eqb_empty_false, append_nonempty_r. discriminate. }
  assert (E4 : endswith "/" ((datapath ++ "/" ++ ds) ++ "/" ++ "db") = false).
  { rewrite endswith_slash_app by discriminate. reflexivity. }
  rewrite E3, E4. cbn [orb].
  rewrite !append_assoc. reflexivity.
Qed.

Lemma format_03d_nonneg_table :
  forallb (fun k => String.eqb (format_03d_int (Z.of_nat k))
                               (three_digits (Z.of_nat k)))
          (seq 0 1000) = true.
Proof. vm_compute. reflexivity. Qed.

Lemma format_03d_neg_table :
  forallb (fun k => String.eqb (format_03d_int (- Z.of_nat k))
                               ("-" ++ two_digits (Z.of_nat k)))
          (seq 1 99) = true.
Proof. vm_compute. reflexivity. Qed.

(** From 0 to 999 the format gives exactly the three digits. *)
Lemma format_03d_three_digits (z : Z) :
  0 <= z <= 999 -> format_03d_int z = three_digits z.
Proof.
  intros H. pose proof format_03d_nonneg_table as T.
  rewrite forallb_forall in T.
  specialize (T (Z.to_nat z)). rewrite Z2Nat.id in T by lia.
  apply String.eqb_eq, T, in_seq. lia.
Qed.

(** From -99 to -1 it gives the sign and two digits. *)
Lemma format_03d_sign_two_digits (z : Z) :
  -99 <= z <= -1 -> format_03d_int z = "-" ++ two_digits (- z).
Proof.
  intros H. pose proof format_03d_neg_table as T.
  rewrite forallb_forall in T.
  specialize (T (Z.to_nat (- z))). rewrite Z2Nat.id in T by lia.
  rewrite Z.opp_involutive in T.
  apply String.eqb_eq, T, in_seq. lia.
Qed.

Lemma three_digits_table :
  forallb (fun k => (three_digit (three_digits (Z.of_nat k))
                     && (value3 (three_digits (Z.of_nat k)) =? Z.of_nat k))%bool)
          (seq 0 1000) = true.
Proof. vm_compute. reflexivity. Qed.

Lemma three_digits_spec (z : Z) :
  0 <= z <= 999 ->
  three_digit (three_digits z) = true /\ value3 (three_digits z) = z.
Proof.
  intros H. pose proof three_digits_table as T.
  rewrite forallb_forall in T.
  specialize (T (Z.to_nat z)). rewrite Z2Nat.id in T by lia.
  assert (Hin : In (Z.to_nat z) (seq 0 1000)) by (apply in_seq; lia).
  apply T in Hin. apply andb_true_iff in Hin. destruct Hin as [H1 H2].
  split; [exact H1|]. now apply Z.eqb_eq.
Qed.

(** ** The store *)


(** C1. [dump] raises on its first species and leaves the world as it
    was: the multiplicity it passes to [datafile] is [None], which the
    format [03d] rejects with [TypeError] (unless the symbol look-up has
    raised before it). And [load] returns no record for any key: it asks
    the file object for a method it does not have; all it can return is
    the empty list of a wildcard that matches no file. No record makes
    the round trip. *)
Theorem dump_load_never_round_trip (s : Species) (species' : list Species)
    (datapath : string) (w w0 : world)
    (elem charge mult nexc : pyval) (dataset : string) :
  dump (s :: species') datapath w
    = (w, Err match (if is_Ellipsis (Species_elem s) then Ok "*"
                     else element_symbol (Species_elem s)) with
              | Ok _ => TypeError
              | Err e => e
              end) /\
  match snd (load elem charge mult nexc dataset datapath w0) with
  | Ok (LoadedOne _) => False
  | Ok (LoadedMany l) => l = []
  | Err _ => True
  end.
Proof.
  split.
  - cbn [dump]. unfold datafile, Species_mult. monad_unfold.
    destruct (if is_Ellipsis (Species_elem s) then Ok "*"
              else element_symbol (Species_elem s)) as [sym|e];
      reflexivity.
  - unfold load. monad_unfold.
    destruct (datafile elem charge mult nexc dataset datapath) as [fn|e];
      [|exact I].
    destruct (existsb is_Ellipsis [elem; charge; mult; nexc]).
    + destruct (glob (map fst (files w0)) fn) as [|file names];
        [reflexivity|].
      cbn [load_files]. unfold py_open. monad_unfold. cbn.
      destruct (lookup_file (files w0) file); cbn; exact I.
    + unfold py_open. monad_unfold. cbn.
      destruct (lookup_file (files w0) fn); cbn; exact I.
Qed.

(* ================================================================== *)
(** * Further properties of the store *)

(** ** Numbers in file names *)

Lemma digit_char_value (d : Z) :
  0 <= d <= 9 -> Z.of_nat (nat_of_ascii (digit_char d)) - 48 = d.
Proof.
  intros H. unfold digit_char. rewrite nat_ascii_embedding; lia.
Qed.

Lemma digit_char_is_digit (d : Z) :
  0 <= d <= 9 -> is_digit (digit_char d) = true.
Proof.
  intros H. unfold is_digit, digit_char. rewrite nat_ascii_embedding by lia.
  apply andb_true_iff. split; apply Nat.leb_le; lia.
Qed.

Lemma digits_acc_app (fuel : nat) (n : Z) (acc : string) :
  digits_acc fuel n acc = digits_acc fuel n "" ++ acc.
Proof.
  revert n acc. induction fuel as [|fuel IH]; intros n acc; cbn [digits_acc].
  - reflexivity.
  - destruct (n / 10 =? 0); [reflexivity|].
    rewrite (IH (n / 10) (String _ acc)), (IH (n / 10) (String _ "")).
    now rewrite append_assoc.
Qed.

Lemma value_acc_app (s t : string) (a : Z) :
  value_acc (s ++ t) a = value_acc t (value_acc s a).
Proof.
  revert a. induction s as [|c s IH]; intros a; cbn; [reflexivity|apply IH].
Qed.

Lemma value_digits_acc (fuel : nat) (n : Z) :
  0 <= n < 2 ^ Z.of_nat fuel ->
  value_acc (digits_acc fuel n "") 0 = n.
Proof.
  revert n. induction fuel as [|fuel IH]; intros n H.
  - cbn in *. lia.
  - cbn [digits_acc].
    assert (Hm : 0 <= n mod 10 <= 9) by (pose proof (Z.mod_pos_bound n 10); lia).
    destruct (n / 10 =? 0) eqn:E.
    + apply Z.eqb_eq in E. cbn [value_acc]. rewrite digit_char_value by exact Hm.
      rewrite (Z.div_mod n 10) at 2 by lia. lia.
    + rewrite digits_acc_app, value_acc_app. cbn [value_acc].
      rewrite digit_char_value by exact Hm.
      rewrite IH.
      * rewrite (Z.div_mod n 10) at 3 by lia. lia.
      * rewrite Nat2Z.inj_succ, Z.pow_succ_r in H by lia.
        split; [apply Z.div_pos; lia|].
        apply Z.div_lt_upper_bound; lia.
Qed.

(** The digits of a number denote it. *)
Lemma value_digits (n : Z) : 0 <= n -> value_acc (digits n) 0 = n.
Proof.
  intros H. unfold digits. apply value_digits_acc.
  rewrite Nat2Z.inj_succ, Z2Nat.id by apply Z.log2_nonneg.
  destruct (Z.eq_dec n 0) as [->|Hn]; [cbn; lia|].
  split; [exact H|]. apply Z.log2_spec. lia.
Qed.

Lemma value_acc_zeros (k : nat) (s : string) :
  value_acc (zeros k ++ s) 0 = value_acc s 0.
Proof.
  induction k as [|k IH]; [reflexivity|]. cbn [zeros append value_acc].
  exact IH.
Qed.

Lemma all_chars_app (P : ascii -> bool) (s t : string) :
  all_chars P (s ++ t) = (all_chars P s && all_chars P t)%bool.
Proof.
  induction s as [|c s IH]; cbn; [reflexivity|].
  now rewrite IH, andb_assoc.
Qed.

Lemma all_chars_zeros (k : nat) : all_chars is_digit (zeros k) = true.
Proof. induction k as [|k IH]; [reflexivity|]. cbn. exact IH. Qed.

Lemma all_chars_digits_acc (fuel : nat) (n : Z) (acc : string) :
  all_chars is_digit acc = true ->
  all_chars is_digit (digits_acc fuel n acc) = true.
Proof.
  revert n acc. induction fuel as [|fuel IH]; intros n acc H; cbn [digits_acc].
  - exact H.
  - assert (Hm : 0 <= n mod 10 <= 9) by (pose proof (Z.mod_pos_bound n 10); lia).
    assert (Hd : all_chars is_digit (String (digit_char (n mod 10)) acc) = true).
    { cbn [all_chars]. now rewrite digit_char_is_digit, H by exact Hm. }
    destruct (n / 10 =? 0); [exact Hd|now apply IH].
Qed.

Lemma all_chars_weaken (P Q : ascii -> bool) (s : string) :
  (forall c, P c = true -> Q c = true) ->
  all_chars P s = true -> all_chars Q s = true.
Proof.
  intros HPQ. induction s as [|c s IH]; cbn; [reflexivity|].
  intros H. apply andb_true_iff in H. destruct H as [H1 H2].
  now rewrite (HPQ c H1), IH.
Qed.

(** A string of digits does not start with the minus sign. *)
Lemma parse_int_digits (s : string) :
  all_chars is_digit s = true -> parse_int s = value_acc s 0.
Proof.
  destruct s as [|c s]; [reflexivity|]. cbn [all_chars parse_int].
  intros H. apply andb_true_iff in H. destruct H as [H _].
  destruct (Ascii.eqb c "-") eqn:E; [|reflexivity].
  apply Ascii.eqb_eq in E. subst c. discriminate H.
Qed.

Lemma format_03d_int_nonneg (z : Z) :
  0 <= z ->
  format_03d_int z = zeros (3 - String.length (digits z)) ++ digits z.
Proof.
  intros H. unfold format_03d_int.
  destruct (z <? 0) eqn:E; [apply Z.ltb_lt in E; lia|].
  rewrite Z.abs_eq by exact H. cbn [String.length append]. now rewrite Nat.sub_0_r.
Qed.

Lemma format_03d_int_neg (z : Z) :
  z < 0 ->
  format_03d_int z
    = String "-" (zeros (2 - String.length (digits (- z))) ++ digits (- z)).
Proof.
  intros H. unfold format_03d_int.
  destruct (z <? 0) eqn:E; [|apply Z.ltb_ge in E; lia].
  rewrite Z.abs_neq by lia. reflexivity.
Qed.

Lemma string_length_app (s t : string) :
  String.length (s ++ t) = (String.length s + String.length t)%nat.
Proof. induction s as [|c s IH]; cbn; [reflexivity|now rewrite IH]. Qed.

Lemma zeros_length (k : nat) : String.length (zeros k) = k.
Proof. induction k as [|k IH]; cbn; [reflexivity|now rewrite IH]. Qed.

(** C6. For every key without wildcard, the database file is the join
    of the data path, the lowercased dataset, [db] and the file name
    (for plain components: these four with one slash between them), the
    file name being the canonical symbol and charge, multiplicity and
    excitation in the format [03d], joined by underscores, with the
    extension [.msg]. The format [03d] pads with zeros to a width of at
    least three: a number from 0 to 999 is written with exactly three
    digits that denote it, a number from -99 to -1 with the minus sign
    and two digits. Equal keys give equal paths. *)
Theorem datafile_path_format (elem : pyval) (charge mult nexc : Z)
    (dataset datapath sym : string) :
  is_Ellipsis elem = false ->
  element_symbol elem = Ok sym ->
  let name := sym ++ "_" ++ format_03d_int charge
              ++ "_" ++ format_03d_int mult
              ++ "_" ++ format_03d_int nexc ++ ".msg" in
  datafile elem (PyInt charge) (PyInt mult) (PyInt nexc) dataset datapath
    = Ok (path_join datapath [lower dataset; "db"; name]) /\
  (datapath <> "" -> endswith "/" datapath = false ->
   plain_component (lower dataset) -> startswith "/" sym = false ->
   path_join datapath [lower dataset; "db"; name]
     = datapath ++ "/" ++ lower dataset ++ "/db/" ++ name) /\
  (forall z : Z,
     (0 <= z <= 999 ->
      three_digit (format_03d_int z) = true /\ value3 (format_03d_int z) = z) /\
     (-99 <= z <= -1 -> format_03d_int z = "-" ++ two_digits (- z)) /\
     (3 <= String.length (format_03d_int z))%nat) /\
  (forall charge' mult' nexc' : Z,
     charge' = charge -> mult' = mult -> nexc' = nexc ->
     datafile elem (PyInt charge') (PyInt mult') (PyInt nexc') dataset datapath
       = datafile elem (PyInt charge) (PyInt mult) (PyInt nexc)
           dataset datapath).
Proof.
  intros He Hsym name. split; [|split; [|split]].
  - unfold datafile. rewrite He, Hsym. reflexivity.
  - intros Hne Hend Hds Hs. apply path_join_plain; try assumption.
    apply startswith_slash_app; [discriminate|reflexivity|exact Hs].
  - intros z. split; [|split].
    + intros Hz. rewrite format_03d_three_digits by exact Hz.
      now apply three_digits_spec.
    + apply format_03d_sign_two_digits.
    + destruct (Z_lt_le_dec z 0) as [Hneg|Hpos].
      * rewrite format_03d_int_neg by exact Hneg.
        cbn [String.length]. rewrite string_length_app, zeros_length. lia.
      * rewrite format_03d_int_nonneg by exact Hpos.
        rewrite string_length_app, zeros_length. lia.
  - intros charge' mult' nexc' -> -> ->. reflexivity.
Qed.

(** X1. Reading a formatted number back gives the number, for every
    integer; the formatted number consists of digits and at most a
    leading minus sign, and is at least three characters long. *)
Theorem format_03d_round_trip (z : Z) :
  parse_int (format_03d_int z) = z /\
  all_chars key_char (format_03d_int z) = true /\
  (3 <= String.length (format_03d_int z))%nat.
Proof.
  assert (Hd : forall n, all_chars is_digit (digits n) = true).
  { intros n. unfold digits. now apply all_chars_digits_acc. }
  assert (Hk : forall c, is_digit c = true -> key_char c = true).
  { intros c H. unfold key_char. now rewrite H. }
  destruct (Z_lt_le_dec z 0) as [Hneg|Hpos].
  - rewrite format_03d_int_neg by exact Hneg. repeat split.
    + cbn [parse_int]. change (Ascii.eqb "-" "-") with true. cbn iota.
      rewrite value_acc_zeros, value_digits; lia.
    + cbn [all_chars]. change (key_char "-") with true. cbn [andb].
      apply (all_chars_weaken is_digit); [exact Hk|].
      now rewrite all_chars_app, all_chars_zeros, Hd.
    + cbn [String.length]. rewrite string_length_app, zeros_length. lia.
  - rewrite format_03d_int_nonneg by exact Hpos. repeat split.
    + rewrite parse_int_digits
        by now rewrite all_chars_app, all_chars_zeros, Hd.
      rewrite value_acc_zeros. now apply value_digits.
    + apply (all_chars_weaken is_digit); [exact Hk|].
      now rewrite all_chars_app, all_chars_zeros, Hd.
    + rewrite string_length_app, zeros_length. lia.
Qed.


(** ** Keys and paths *)

Lemma Ok_inj {A} (a b : A) : Ok a = Ok b -> a = b.
Proof. intros H. now inversion H. Qed.

Lemma String_inj (c : ascii) (x y : string) : String c x = String c y -> x = y.
Proof. intros H. now inversion H. Qed.

Lemma append_inj_l (a x y : string) : a ++ x = a ++ y -> x = y.
Proof.
  induction a as [|c a IH]; cbn; [auto|]. intros H. inversion H. auto.
Qed.

(** A string of characters of one class, up to a separator outside the
    class, is determined by the whole. *)
Lemma split_unique (P : ascii -> bool) (sep : ascii) (u u' r r' : string) :
  P sep = false ->
  all_chars P u = true -> all_chars P u' = true ->
  u ++ String sep r = u' ++ String sep r' ->
  u = u' /\ r = r'.
Proof.
  intros Hsep. revert u'.
  induction u as [|c u IH]; intros [|c' u'] Hu Hu' H; cbn in *.
  - inversion H. auto.
  - inversion H; subst. apply andb_true_iff in Hu'. destruct Hu' as [Hc _].
    congruence.
  - inversion H; subst. apply andb_true_iff in Hu. destruct Hu as [Hc _].
    congruence.
  - inversion H; subst.
    apply andb_true_iff in Hu. apply andb_true_iff in Hu'.
    destruct (IH u' (proj2 Hu) (proj2 Hu') H2) as [-> ->]. auto.
Qed.

Lemma path_join_one_inj (a n1 n2 : string) :
  startswith "/" n1 = startswith "/" n2 ->
  path_join a [n1] = path_join a [n2] -> n1 = n2.
Proof.
  cbn [path_join]. intros <-.
  destruct (startswith "/" n1); [auto|].
  destruct (String.eqb a "" || endswith "/" a)%bool; intros H.
  - now apply append_inj_l in H.
  - apply append_inj_l in H. now inversion H.
Qed.

Lemma path_join_cons (a b : string) :
  exists a' : string, forall p : list string,
    path_join a (b :: p) = path_join a' p.
Proof.
  cbn [path_join]. destruct (startswith "/" b); [now exists b|].
  destruct (String.eqb a "" || endswith "/" a)%bool; eexists; reflexivity.
Qed.

Lemma path_join_last_inj (a b c n1 n2 : string) :
  startswith "/" n1 = startswith "/" n2 ->
  path_join a [b; c; n1] = path_join a [b; c; n2] -> n1 = n2.
Proof.
  intros Hs. destruct (path_join_cons a b) as [a' Ha].
  destruct (path_join_cons a' c) as [a'' Ha'].
  rewrite !Ha, !Ha'. now apply path_join_one_inj.
Qed.

Lemma startswith_slash_stem (sym r r' : string) :
  startswith "/" (sym ++ String "_" r) = startswith "/" (sym ++ String "_" r').
Proof. destruct sym; reflexivity. Qed.

(** X2. Two exact keys with the same element, dataset and data path
    that name the same file have the same charge, multiplicity and
    excitation: no two records share a file. *)
Theorem datafile_injective (elem : pyval) (c m n c' m' n' : Z)
    (dataset datapath path : string) :
  datafile elem (PyInt c) (PyInt m) (PyInt n) dataset datapath = Ok path ->
  datafile elem (PyInt c') (PyInt m') (PyInt n') dataset datapath = Ok path ->
  c = c' /\ m = m' /\ n = n'.
Proof.
  unfold datafile.
  destruct (if is_Ellipsis elem then Ok "*" else element_symbol elem)
    as [sym|e]; cbn [rbind star_or_03d is_Ellipsis format_03d];
    [|discriminate].
  intros H1 H2. rewrite <- H1 in H2. apply Ok_inj in H2. clear H1.
  cbn [append] in H2. apply path_join_last_inj in H2;
    [|apply startswith_slash_stem].
  apply append_inj_l in H2. apply String_inj in H2. rename H2 into H'.
  destruct (format_03d_round_trip c) as [Pc [Kc _]].
  destruct (format_03d_round_trip c') as [Pc' [Kc' _]].
  destruct (format_03d_round_trip m) as [Pm [Km _]].
  destruct (format_03d_round_trip m') as [Pm' [Km' _]].
  destruct (format_03d_round_trip n) as [Pn [Kn _]].
  destruct (format_03d_round_trip n') as [Pn' [Kn' _]].
  destruct (split_unique key_char "_" _ _ _ _ eq_refl Kc' Kc H') as [Ec H''].
  destruct (split_unique key_char "_" _ _ _ _ eq_refl Km' Km H'') as [Em H3].
  destruct (split_unique key_char "." _ _ _ _ eq_refl Kn' Kn H3) as [En _].
  repeat split; congruence.
Qed.

Lemma lower_ascii_idempotent (c : ascii) :
  lower_ascii (lower_ascii c) = lower_ascii c.
Proof.
  destruct c as [[] [] [] [] [] [] [] []]; reflexivity.
Qed.

Lemma lower_idempotent (s : string) : lower (lower s) = lower s.
Proof.
  induction s as [|c s IH]; cbn; [reflexivity|].
  now rewrite lower_ascii_idempotent, IH.
Qed.

(** X3. The letter case of the dataset name does not matter to the
    store: a name and its lowercased form give the same database file
    and the same raw file, and the dataset a species remembers is the
    lowercased one. *)
Theorem dataset_case_insensitive (elem charge mult nexc : pyval)
    (dataset datapath suffix : string) (fields : SpeciesData)
    (spinpol : pyval) (s : Species) :
  datafile elem charge mult nexc (lower dataset) datapath
    = datafile elem charge mult nexc dataset datapath /\
  raw_datafile suffix elem charge mult nexc (lower dataset) datapath
    = raw_datafile suffix elem charge mult nexc dataset datapath /\
  (Species_init dataset fields spinpol = Ok s ->
   Species_dataset s = lower dataset /\
   Species_init (lower dataset) fields spinpol = Ok s).
Proof.
  unfold datafile, raw_datafile. rewrite lower_idempotent.
  repeat split.
  - unfold Species_init in H.
    destruct (check_spinpol spinpol); cbn in H; [|discriminate].
    destruct (Element_init (atnum fields)); cbn in H; [|discriminate].
    now inversion H.
  - unfold Species_init in *. now rewrite lower_idempotent.
Qed.

(** X4. [datafile] returns a path exactly when the element is the
    wildcard or has a symbol and each of charge, multiplicity and
    excitation is an integer, a boolean or the wildcard; [raw_datafile]
    accepts and rejects the same keys, with the same error. *)
Theorem datafile_accepts (elem charge mult nexc : pyval)
    (dataset datapath suffix : string) :
  ((exists path, datafile elem charge mult nexc dataset datapath = Ok path)
   <->
   (is_Ellipsis elem = true \/ exists sym, element_symbol elem = Ok sym) /\
   key_field_ok charge = true /\ key_field_ok mult = true /\
   key_field_ok nexc = true) /\
  (forall e : exn,
     datafile elem charge mult nexc dataset datapath = Err e <->
     raw_datafile suffix elem charge mult nexc dataset datapath = Err e).
Proof.
  unfold datafile, raw_datafile, star_or_03d, key_field_ok.
  split; [split|].
  - intros [path H].
    destruct (is_Ellipsis elem) eqn:Ee.
    + destruct charge as [| | | | |], mult as [| | | | |], nexc as [| | | | |];
        cbn in *; try discriminate; auto 6.
    + destruct (element_symbol elem) as [sym|e]; cbn in H; [|discriminate].
      destruct charge as [| | | | |], mult as [| | | | |], nexc as [| | | | |];
        cbn in *; try discriminate; eauto 7.
  - intros [He [Hc [Hm Hn]]].
    assert (E : exists sym,
               (if is_Ellipsis elem then Ok "*" else element_symbol elem)
               = Ok sym).
    { destruct (is_Ellipsis elem); [eauto|].
      destruct He as [He|He]; [discriminate|exact He]. }
    destruct E as [sym ->].
    destruct charge as [| | | | |], mult as [| | | | |], nexc as [| | | | |];
      cbn in *; try discriminate; eauto.
  - intros e.
    destruct (if is_Ellipsis elem then Ok "*" else element_symbol elem)
      as [sym|e0]; cbn; [|split; intros H; exact H].
    destruct (if is_Ellipsis charge then Ok "*" else format_03d charge);
      cbn; [|split; intros H; exact H].
    destruct (if is_Ellipsis mult then Ok "*" else format_03d mult);
      cbn; [|split; intros H; exact H].
    destruct (if is_Ellipsis nexc then Ok "*" else format_03d nexc);
      cbn; [|split; intros H; exact H].
    split; discriminate.
Qed.


(** ** [load] and [compile] *)

(** X5. [load] with an exact key: an invalid key raises the error of
    [datafile] and touches nothing; otherwise the file is opened in text
    mode, and the call raises [FileNotFoundError] when there is no such
    file and [AttributeError] when there is one. The files are never
    modified. *)
Theorem load_exact_key (elem charge mult nexc : pyval)
    (dataset datapath : string) (w : world) :
  existsb is_Ellipsis [elem; charge; mult; nexc] = false ->
  match datafile elem charge mult nexc dataset datapath with
  | Err e => load elem charge mult nexc dataset datapath w = (w, Err e)
  | Ok fn =>
      load elem charge mult nexc dataset datapath w
        = (mkWorld (files w) (trace w ++ [EvOpen fn "r"]),
           Err match lookup_file (files w) fn with
               | Some _ => AttributeError
               | None => FileNotFoundError
               end)
  end.
Proof.
  intros Hw. unfold load. rewrite Hw.
  destruct (datafile elem charge mult nexc dataset datapath) as [fn|e];
    [|reflexivity].
  unfold py_open. monad_unfold. cbn.
  destruct (lookup_file (files w) fn); reflexivity.
Qed.

(** X6. [load] with a wildcard in the key: when no file matches the
    pattern it returns the empty list and leaves the world as it was;
    when a file matches, it opens the first match in binary mode and
    raises [AttributeError] (or [FileNotFoundError] if the match does
    not exist), so it never returns a record. *)
Theorem load_wildcard (elem charge mult nexc : pyval)
    (dataset datapath pattern : string) (w : world) :
  existsb is_Ellipsis [elem; charge; mult; nexc] = true ->
  datafile elem charge mult nexc dataset datapath = Ok pattern ->
  match glob (map fst (files w)) pattern with
  | [] =>
      load elem charge mult nexc dataset datapath w = (w, Ok (LoadedMany []))
  | file :: _ =>
      load elem charge mult nexc dataset datapath w
        = (mkWorld (files w) (trace w ++ [EvOpen file "rb"]),
           Err match lookup_file (files w) file with
               | Some _ => AttributeError
               | None => FileNotFoundError
               end)
  end.
Proof.
  intros Hw Hp. unfold load. rewrite Hw, Hp. monad_unfold. cbn.
  destruct (glob (map fst (files w)) pattern) as [|file names];
    [reflexivity|].
  cbn [load_files]. unfold py_open. monad_unfold. cbn.
  destruct (lookup_file (files w) file); reflexivity.
Qed.

Lemma dump_nonempty_raises (s : Species) (species' : list Species)
    (datapath : string) (w : world) :
  exists e : exn, dump (s :: species') datapath w = (w, Err e).
Proof.
  cbn [dump]. unfold datafile, Species_mult. monad_unfold.
  destruct (if is_Ellipsis (Species_elem s) then Ok "*"
            else element_symbol (Species_elem s)) as [sym|e];
    eexists; reflexivity.
Qed.

(** X7. [compile] never completes: whatever the dataset's routine
    returns, the call ends in an error. When the import of the routine
    fails, the two directories have been asked for and nothing else has
    happened. *)
Theorem compile_never_completes (elem : pyval) (charge mult nexc : Z)
    (dataset datapath : string) (w : world) :
  (forall u : unit,
     snd (compile elem charge mult nexc dataset datapath w) <> Ok u) /\
  (forall e : exn,
     import_module ("atomdb.datasets." ++ dataset ++ ".run") = Err e ->
     compile elem charge mult nexc dataset datapath w
       = (mkWorld (files w)
            ((trace w ++ [EvExternal "os.makedirs"])
             ++ [EvExternal "os.makedirs"]),
          Err e)).
Proof.
  split.
  - intros u. unfold compile, makedirs, bind, lift, emit.
    destruct (import_module ("atomdb.datasets." ++ dataset ++ ".run"))
      as [f|e]; [|discriminate].
    match goal with
    | |- context [f ?a ?b ?c ?d ?e ?g ?h] =>
        destruct (f a b c d e g h) as [w' [sp|e']]
    end; [|discriminate].
    destruct (dump_nonempty_raises sp [] datapath w') as [e' He].
    rewrite He. discriminate.
  - intros e He. unfold compile, makedirs, bind, lift, emit.
    now rewrite He.
Qed.

(** ** The compile routine of the dataset *)

(** X8. With [nexc = 0], [run] looks the element up and enters the
    computation with [nelec = natom - charge] and [nspin = mult - 1]; the
    numbers of spin-up and spin-down electrons it derives add up to
    [nelec] and differ by [nspin] exactly when [nelec + nspin] is even.
    A failed look-up ends the call before any computation. *)
Theorem run_electron_counts (elem : pyval) (charge mult : Z)
    (dataset datapath : string) (w : world) :
  (forall e, element_symbol elem = Err e ->
     run elem charge mult 0 dataset datapath w
       = (mkWorld (files w) (trace w ++ [EvExternal "atomdb.element_symbol"]),
          Err e)) /\
  (forall sym natom,
     element_symbol elem = Ok sym -> element_number sym = Ok natom ->
     let nelec := natom - charge in
     let nspin := mult - 1 in
     let n_up := (nelec + nspin) / 2 in
     let n_dn := (nelec - nspin) / 2 in
     run elem charge mult 0 dataset datapath w
       = hci_pipeline sym natom nelec nspin n_up n_dn
           charge mult 0 dataset datapath
           (mkWorld (files w)
              ((trace w ++ [EvExternal "atomdb.element_symbol"])
               ++ [EvExternal "atomdb.element_number"])) /\
     (n_up + n_dn = nelec /\ n_up - n_dn = nspin
      <-> Z.even (nelec + nspin) = true)).
Proof.
  split.
  - intros e He. unfold run. monad_unfold. cbn. now rewrite He.
  - intros sym natom Hs Hn nelec nspin n_up n_dn.
    split.
    + unfold run. monad_unfold. cbn. now rewrite Hs, Hn.
    + subst n_up n_dn. rewrite Z.even_spec. split.
      * intros [H1 H2].
        exists ((nelec + nspin) / 2).
        pose proof (Z.div_mod (nelec + nspin) 2).
        pose proof (Z.div_mod (nelec - nspin) 2).
        pose proof (Z.mod_pos_bound (nelec + nspin) 2).
        pose proof (Z.mod_pos_bound (nelec - nspin) 2).
        lia.
      * intros [k Hk].
        assert (E1 : (nelec + nspin) / 2 = k)
          by (rewrite Hk, Z.mul_comm; apply Z.div_mul; lia).
        assert (E2 : (nelec - nspin) / 2 = k - nspin).
        { replace (nelec - nspin) with ((k - nspin) * 2) by lia.
          apply Z.div_mul. lia. }
        lia.
Qed.


(* ================================================================== *)
(** * Further properties of the splines *)

(** X9. For a derivative order from 0 to 2 the call of a spline never
    raises, returns one value per query point in either mode, and leaves
    the files alone. *)
Theorem DensitySpline_call_shape (self : DensitySpline) (x : vector)
    (deriv : Z) (w : world) :
  0 <= deriv <= 2 ->
  exists (w' : world) (v : vector),
    DensitySpline_call self x deriv w = (w', Ok v) /\
    length v = length x /\
    files w' = files w.
Proof.
  intros H. unfold DensitySpline_call.
  assert (E : ((0 <=? deriv) && (deriv <=? 2))%bool = true).
  { apply andb_true_iff. split; apply Z.leb_le; lia. }
  rewrite E. cbn [negb].
  destruct (_log self).
  - destruct (deriv =? 1) eqn:E1; [|destruct (deriv =? 2) eqn:E2];
      monad_unfold; cbn; eexists; eexists;
      (split; [reflexivity|]); (split; [|reflexivity]);
      unfold vadd, vmul, flatten;
      repeat (rewrite ?map2_length, ?length_map; try reflexivity).
  - monad_unfold; cbn. eexists; eexists.
    split; [reflexivity|]. split; [apply length_map|reflexivity].
Qed.

(** X11. The spline an accessor returns is never in log mode: it is the
    fit of the array the accessor selected, over the grid of the record,
    and a call with a derivative order from 0 to 2 returns that
    derivative of the fit itself. *)
Theorem accessor_spline_is_linear (method_name : string) (self : Species)
    (spin : string) (index : option (list Z)) (w w' : world)
    (sp : DensitySpline) :
  spline method_name self spin index w = (w', Ok sp) ->
  _log sp = false /\
  (exists x y : vector,
     snd (spline_args method_name self spin index w) = Ok (x, y) /\
     CubicSpline x y = Ok (_obj sp)) /\
  (forall (q : vector) (d : Z) (w2 : world),
     0 <= d <= 2 ->
     snd (DensitySpline_call sp q d w2)
       = Ok (map (fun p => spl_eval (_obj sp) p d) q)).
Proof.
  unfold spline. unfold bind at 1.
  destruct (spline_args method_name self spin index w) as [w1 [[x y]|e]];
    [|discriminate].
  cbn [fst snd]. intros H. apply DensitySpline_init_inv in H.
  destruct H as [Hlog Hfit].
  split; [exact Hlog|]. split; [exists x, y; auto|].
  intros q d w2 Hd. unfold DensitySpline_call. rewrite Hlog.
  assert (E : ((0 <=? d) && (d <=? 2))%bool = true).
  { apply andb_true_iff. split; apply Z.leb_le; lia. }
  rewrite E. reflexivity.
Qed.


(* ================================================================== *)
(** * Further properties of the accessors *)

(** ** Exchanging the operands of an array operator *)

Lemma bdim_comm (a b : nat) : bdim a b = bdim b a.
Proof.
  unfold bdim.
  destruct (Nat.eqb_spec a b) as [->|Hab].
  - now rewrite Nat.eqb_refl.
  - destruct (Nat.eqb_spec b a) as [->|_]; [contradiction|].
    destruct (Nat.eqb_spec a 1) as [->|Ha];
      destruct (Nat.eqb_spec b 1) as [->|Hb]; reflexivity.
Qed.

Lemma map2_swap {A B C} (f : A -> B -> C) (l1 : list A) (l2 : list B) :
  map2 f l1 l2 = map2 (fun b a => f a b) l2 l1.
Proof.
  revert l2. induction l1 as [|a l1 IH]; intros [|b l2]; cbn;
    try reflexivity.
  now rewrite IH.
Qed.

Lemma map2_ext {A B C} (f g : A -> B -> C) (l1 : list A) (l2 : list B) :
  (forall a b, f a b = g a b) -> map2 f l1 l2 = map2 g l1 l2.
Proof.
  intros H. revert l2. induction l1 as [|a l1 IH]; intros [|b l2]; cbn;
    try reflexivity.
  now rewrite H, IH.
Qed.

Lemma map2_map_out {A B C D} (g : C -> D) (f : A -> B -> C)
    (l1 : list A) (l2 : list B) :
  map2 (fun a b => g (f a b)) l1 l2 = map g (map2 f l1 l2).
Proof.
  revert l2. induction l1 as [|a l1 IH]; intros [|b l2]; cbn;
    try reflexivity.
  now rewrite IH.
Qed.

(** Exchanging the operands of [op] and applying [g] to each result. *)
Lemma broadcast2_swap (op op' : R -> R -> R) (g : R -> R) (a b : matrix) :
  (forall x y, op' y x = g (op x y)) ->
  broadcast2 op' b a
    = match broadcast2 op a b with
      | Ok m => Ok (mkMatrix (ncols m) (map (map g) (rows m)))
      | Err e => Err e
      end.
Proof.
  intros H. unfold broadcast2.
  rewrite (bdim_comm (nrows b)), (bdim_comm (ncols b)).
  destruct (bdim (nrows a) (nrows b)) as [nr|]; [|reflexivity].
  destruct (bdim (ncols a) (ncols b)) as [nc|]; [|reflexivity].
  cbn. f_equal. f_equal.
  rewrite map2_swap. rewrite <- map2_map_out.
  apply map2_ext. intros ra rb.
  rewrite map2_swap. rewrite <- map2_map_out.
  apply map2_ext. intros x y. apply H.
Qed.

Lemma map_id_ext {A} (f : A -> A) (l : list A) :
  (forall a, f a = a) -> map f l = l.
Proof.
  intros H. induction l as [|a l IH]; cbn; [reflexivity|].
  now rewrite H, IH.
Qed.

Lemma nd_add_comm (a b : matrix) : nd_add b a = nd_add a b.
Proof.
  unfold nd_add.
  rewrite (broadcast2_swap Rplus Rplus (fun x => x) a b)
    by (intros; apply Rplus_comm).
  destruct (broadcast2 Rplus a b) as [[n rws]|e]; [|reflexivity].
  cbn. f_equal. f_equal.
  apply map_id_ext. intros r. apply map_id_ext. reflexivity.
Qed.

Lemma nd_sub_swap (a b : matrix) :
  nd_sub b a
    = match nd_sub a b with
      | Ok m => Ok (mkMatrix (ncols m) (map (map Ropp) (rows m)))
      | Err e => Err e
      end.
Proof.
  unfold nd_sub. apply broadcast2_swap. intros x y. lra.
Qed.

Lemma take_rows_list_map (g : vector -> vector) (rws : list vector)
    (idx : list Z) :
  g [] = [] ->
  take_rows_list (map g rws) idx
    = match take_rows_list rws idx with
      | Ok sel => Ok (map g sel)
      | Err e => Err e
      end.
Proof.
  intros Hg. induction idx as [|i idx IH]; cbn; [reflexivity|].
  rewrite length_map.
  destruct (norm_index (length rws) i) as [k|e]; cbn; [|reflexivity].
  rewrite IH.
  destruct (take_rows_list rws idx) as [sel|e]; cbn; [|reflexivity].
  rewrite <- Hg at 1. now rewrite map_nth.
Qed.

Lemma vadd_map_Ropp (u v : vector) :
  vadd (map Ropp u) (map Ropp v) = map Ropp (vadd u v).
Proof.
  unfold vadd. revert v. induction u as [|a u IH]; intros [|b v]; cbn;
    try reflexivity.
  rewrite IH. f_equal. lra.
Qed.

Lemma fold_vadd_map_Ropp (rws : list vector) (acc : vector) :
  fold_left vadd (map (map Ropp) rws) (map Ropp acc)
    = map Ropp (fold_left vadd rws acc).
Proof.
  revert acc. induction rws as [|r rws IH]; intros acc; cbn; [reflexivity|].
  now rewrite vadd_map_Ropp, IH.
Qed.

Lemma sum_axis0_map_Ropp (n : nat) (rws : list vector) :
  sum_axis0 (mkMatrix n (map (map Ropp) rws))
    = map Ropp (sum_axis0 (mkMatrix n rws)).
Proof.
  unfold sum_axis0; cbn. rewrite <- fold_vadd_map_Ropp. f_equal.
  induction n as [|n IH]; cbn; [reflexivity|]. rewrite <- IH. f_equal. lra.
Qed.

Lemma select_map_Ropp (n : nat) (rws : list vector)
    (index : option (list Z)) (x : vector) :
  rbind (select (mkMatrix n (map (map Ropp) rws)) index)
        (fun sel => Ok (x, sum_axis0 sel))
    = match rbind (select (mkMatrix n rws) index)
                  (fun sel => Ok (x, sum_axis0 sel)) with
      | Ok (x', y) => Ok (x', map Ropp y)
      | Err e => Err e
      end.
Proof.
  destruct index as [idx|]; cbn [select rbind].
  - unfold take_rows; cbn [ncols rows]. rewrite take_rows_list_map by reflexivity.
    destruct (take_rows_list rws idx) as [sel|e]; cbn [rbind]; [|reflexivity].
    now rewrite sum_axis0_map_Ropp.
  - now rewrite sum_axis0_map_Ropp.
Qed.


(** ** The spin polarisation *)

(** X12. Changing the sign of [spinpol] exchanges what the accessors
    return for [spin="a"] and [spin="b"], leaves [spin="t"] as it is and
    changes the sign of every entry of [spin="m"]; an accessor that
    raises for one sign raises the same error for the other. *)
Theorem spinpol_flip (method_name : string) (self : Species)
    (index : option (list Z)) (w w' : world) (A B T : matrix) :
  stored_arrays method_name (_data self) = Some (A, B, T) ->
  _spinpol self = 1 \/ _spinpol self = -1 ->
  snd (spline_args method_name (flipped self) "a" index w)
    = snd (spline_args method_name self "b" index w') /\
  snd (spline_args method_name (flipped self) "b" index w)
    = snd (spline_args method_name self "a" index w') /\
  snd (spline_args method_name (flipped self) "t" index w)
    = snd (spline_args method_name self "t" index w') /\
  snd (spline_args method_name (flipped self) "m" index w)
    = match snd (spline_args method_name self "m" index w') with
      | Ok (x, y) => Ok (x, map Ropp y)
      | Err e => Err e
      end.
Proof.
  intros Hst Hs.
  assert (Hst' : stored_arrays method_name (_data (flipped self))
                 = Some (A, B, T)) by exact Hst.
  rewrite !(spline_args_result _ (flipped self) _ _ _ A B T Hst').
  rewrite !(spline_args_result _ self _ _ _ A B T Hst).
  unfold chosen_array, channels, flipped. cbn [_spinpol _data].
  change (valid_spin "a") with true. change (valid_spin "b") with true.
  change (valid_spin "t") with true. change (valid_spin "m") with true.
  cbn [negb].
  assert (Hi : forall b : bool, (is_None index && b)%bool
                                = if is_None index then b else false)
    by (intros b; destruct (is_None index); reflexivity).
  rewrite !Hi.
  change (String.eqb "a" "t") with false. change (String.eqb "b" "t") with false.
  change (String.eqb "m" "t") with false. change (String.eqb "t" "t") with true.
  change (String.eqb "a" "a") with true. change (String.eqb "b" "a") with false.
  change (String.eqb "b" "b") with true. change (String.eqb "m" "a") with false.
  change (String.eqb "m" "b") with false. change (String.eqb "m" "m") with true.
  assert (Hneg : forall a b : matrix,
            rbind (nd_sub b a) (fun arr =>
            rbind (select arr index) (fun sel =>
            Ok (rs (_data self), sum_axis0 sel)))
            = match rbind (nd_sub a b) (fun arr =>
                    rbind (select arr index) (fun sel =>
                    Ok (rs (_data self), sum_axis0 sel))) with
              | Ok (x, y) => Ok (x, map Ropp y)
              | Err e => Err e
              end).
  { intros a b. rewrite nd_sub_swap.
    destruct (nd_sub a b) as [[n rws]|e]; cbn [rbind ncols rows];
      [|reflexivity].
    apply select_map_Ropp. }
  destruct Hs as [-> | ->]; cbn [Z.opp Z.eqb Pos.eqb];
    destruct (is_None index); repeat split;
    try reflexivity; try apply Hneg;
    now rewrite nd_add_comm.
Qed.


(** ** The orbital index *)

Lemma spline_args_channel (method_name : string) (self : Species)
    (index : option (list Z)) (w : world) (A B T : matrix) :
  stored_arrays method_name (_data self) = Some (A, B, T) ->
  snd (spline_args method_name self "a" index w)
    = rbind (select (channel_a self A B) index) (fun sel =>
      Ok (rs (_data self), sum_axis0 sel)) /\
  snd (spline_args method_name self "b" index w)
    = rbind (select (channel_b self A B) index) (fun sel =>
      Ok (rs (_data self), sum_axis0 sel)).
Proof.
  intros Hst. rewrite !(spline_args_result _ self _ _ _ A B T Hst).
  unfold chosen_array, channel_a, channel_b, channels.
  destruct (_spinpol self =? 1); destruct index; split; reflexivity.
Qed.

(** The reads of an accessor for one channel: the array of the channel,
    then the grid. *)
Lemma spline_args_channel_world (method_name : string) (self : Species)
    (spin : string) (index : option (list Z)) (w : world) (A B T : matrix) :
  stored_arrays method_name (_data self) = Some (A, B, T) ->
  spin = "a" \/ spin = "b" ->
  exists name : string,
    fst (spline_args method_name self spin index w)
      = mkWorld (files w) (trace w ++ [EvGetattr name; EvGetattr "rs"]).
Proof.
  intros H Hs. apply stored_arrays_inv in H.
  unfold spline_args, Species_spinpol.
  destruct H as [[-> _] | [[-> _] | [-> _]]];
    destruct Hs as [-> | ->];
    destruct (_spinpol self =? 1);
    destruct index as [idx|];
    unfold getattr; monad_unfold; cbn;
    repeat match goal with
           | |- context [take_rows ?a ?i] => destruct (take_rows a i); cbn
           end;
    eexists; rewrite <- ?app_assoc; cbn; reflexivity.
Qed.

Lemma norm_index_out_of_range (n : nat) (i : Z) :
  ~ in_range n i -> norm_index n i = Err IndexError.
Proof.
  unfold in_range, norm_index. intros H.
  destruct ((0 <=? i) && (i <? Z.of_nat n))%bool eqn:E1.
  - apply andb_true_iff in E1. lia.
  - destruct ((- Z.of_nat n <=? i) && (i <? 0))%bool eqn:E2; [|reflexivity].
    apply andb_true_iff in E2. lia.
Qed.

Lemma norm_index_in_range (n : nat) (i : Z) :
  in_range n i ->
  norm_index n i = Ok (Z.to_nat (i mod Z.of_nat n)).
Proof.
  unfold in_range, norm_index. intros H.
  destruct ((0 <=? i) && (i <? Z.of_nat n))%bool eqn:E1.
  - apply andb_true_iff in E1. rewrite Z.mod_small by lia. reflexivity.
  - assert (E2 : ((- Z.of_nat n <=? i) && (i <? 0))%bool = true).
    { apply andb_true_iff. apply andb_false_iff in E1. lia. }
    rewrite E2. f_equal. f_equal.
    apply Z.mod_unique with (q := -1); lia.
Qed.

Lemma in_range_mod (n : nat) (i : Z) :
  in_range n i -> in_range n (i mod Z.of_nat n).
Proof.
  unfold in_range. intros H.
  pose proof (Z.mod_pos_bound i (Z.of_nat n)). lia.
Qed.

Lemma take_rows_list_out_of_range (rws : list vector) (idx : list Z) :
  Exists (fun i => ~ in_range (length rws) i) idx ->
  take_rows_list rws idx = Err IndexError.
Proof.
  intros H. induction H as [i idx Hi | i idx H IH]; cbn.
  - now rewrite norm_index_out_of_range.
  - destruct (norm_index (length rws) i) as [k|e] eqn:E; cbn.
    + now rewrite IH.
    + unfold norm_index in E.
      destruct ((0 <=? i) && (i <? Z.of_nat (length rws)))%bool;
        [discriminate|].
      destruct ((- Z.of_nat (length rws) <=? i) && (i <? 0))%bool;
        [discriminate|]. now inversion E.
Qed.

Lemma take_rows_list_in_range (rws : list vector) (idx : list Z) :
  Forall (in_range (length rws)) idx ->
  exists sel : list vector,
    take_rows_list rws idx = Ok sel /\
    take_rows_list rws (map (fun i => i mod Z.of_nat (length rws)) idx)
      = Ok sel.
Proof.
  intros H. induction H as [|i idx Hi H IH]; cbn.
  - eexists; split; reflexivity.
  - destruct IH as [sel [E1 E2]].
    rewrite (norm_index_in_range _ _ (in_range_mod _ _ Hi)).
    rewrite (norm_index_in_range _ _ Hi).
    rewrite Z.mod_mod by (unfold in_range in Hi; lia).
    rewrite E1, E2. cbn. eexists; split; reflexivity.
Qed.

(** X13. An index outside [-n, n), [n] the number of orbitals of the
    channel, makes an accessor for [spin="a"] or [spin="b"] raise
    [IndexError] after its two reads, before any spline is built; when
    every index is inside, the selection succeeds, and an index counted
    from the end ([i - n]) selects the same orbital as [i]: the indices
    reduced modulo [n] give the same array. *)
Theorem accessor_index_bounds (method_name : string) (self : Species)
    (spin : string) (idx : list Z) (w : world) (A B T ch : matrix) :
  stored_arrays method_name (_data self) = Some (A, B, T) ->
  (spin = "a" /\ ch = channel_a self A B) \/
  (spin = "b" /\ ch = channel_b self A B) ->
  (Exists (fun i => ~ in_range (nrows ch) i) idx ->
   exists evs : list event,
     spline method_name self spin (Some idx) w
       = (mkWorld (files w) (trace w ++ evs), Err IndexError) /\
     forall x y, ~ In (EvCubicSpline x y) evs) /\
  (Forall (in_range (nrows ch)) idx ->
   exists y : vector,
     snd (spline_args method_name self spin (Some idx) w)
       = Ok (rs (_data self), y) /\
     snd (spline_args method_name self spin
            (Some (map (fun i => i mod Z.of_nat (nrows ch)) idx)) w)
       = Ok (rs (_data self), y)).
Proof.
  intros Hst Hs.
  assert (Hres : forall index,
            snd (spline_args method_name self spin index w)
            = rbind (select ch index) (fun sel =>
              Ok (rs (_data self), sum_axis0 sel))).
  { intros index.
    destruct (spline_args_channel method_name self index w A B T Hst)
      as [Ha Hb].
    destruct Hs as [[-> ->] | [-> ->]]; assumption. }
  assert (Hsp : spin = "a" \/ spin = "b") by (destruct Hs as [[? _]|[? _]]; auto).
  split.
  - intros Hex.
    destruct (spline_args_channel_world method_name self spin (Some idx) w
                A B T Hst Hsp) as [name Hw].
    exists [EvGetattr name; EvGetattr "rs"]. split.
    + unfold spline, bind.
      specialize (Hres (Some idx)). cbn [select] in Hres.
      unfold take_rows in Hres.
      rewrite (take_rows_list_out_of_range _ _ Hex) in Hres. cbn in Hres.
      destruct (spline_args method_name self spin (Some idx) w)
        as [w1 r]; cbn [fst snd] in *. now subst.
    + intros x y Hin. cbn in Hin.
      destruct Hin as [Hin|[Hin|[]]]; discriminate Hin.
  - intros Hall. unfold nrows in *.
    destruct (take_rows_list_in_range _ _ Hall) as [sel [E1 E2]].
    exists (sum_axis0 (mkMatrix (ncols ch) sel)).
    rewrite !Hres. cbn [select]. unfold take_rows.
    rewrite E1, E2. split; reflexivity.
Qed.


(** ** The magnetisation *)

Lemma map2_repeat_l {A B C} (f : A -> B -> C) (c : A) (n : nat) (l : list B) :
  length l = n -> map2 f (repeat c n) l = map (f c) l.
Proof.
  revert n. induction l as [|b l IH]; intros [|n] H; cbn in *;
    try discriminate; [reflexivity|].
  rewrite IH; [reflexivity|lia].
Qed.

(** The sum over a single row: the row, added to the zero the sum
    starts from. *)
Lemma sum_axis0_single (n : nat) (r : vector) :
  length r = n -> sum_axis0 (mkMatrix n [r]) = map (Rplus 0) r.
Proof.
  intros H. unfold sum_axis0, vadd; cbn. now apply map2_repeat_l.
Qed.

(** Selecting rows of the difference of two arrays of one shape: the
    differences of the selected rows. *)
Lemma select_nd_sub_same_shape (a b sa sb : matrix)
    (index : option (list Z)) (x : vector) :
  wf_matrix a -> wf_matrix b -> same_shape a b ->
  select a index = Ok sa -> select b index = Ok sb ->
  rbind (nd_sub a b) (fun arr =>
  rbind (select arr index) (fun sel => Ok (x, sum_axis0 sel)))
    = Ok (x, sum_axis0 (mkMatrix (ncols a)
                          (map2 (map2 Rminus) (rows sa) (rows sb)))) /\
  length (rows sa) = length (rows sb).
Proof.
  intros Ha Hb Hs Hsa Hsb. unfold nd_sub.
  rewrite (broadcast2_same_shape Rminus a b Ha Hb Hs). cbn [rbind].
  destruct Hs as [Hr Hc]. unfold nrows in Hr.
  destruct index as [idx|]; cbn [select] in *.
  - unfold take_rows in *; cbn [ncols rows].
    destruct (take_rows_list (rows a) idx) as [ta|e] eqn:Ea;
      cbn [rbind] in Hsa; [|discriminate].
    destruct (take_rows_list (rows b) idx) as [tb|e] eqn:Eb;
      cbn [rbind] in Hsb; [|discriminate].
    destruct (take_rows_list_map2 (map2 Rminus) _ _ idx ta tb Hr Ea Eb)
      as [E Hl].
    rewrite E. cbn [rbind]. inversion Hsa; inversion Hsb; subst.
    cbn [rows]. split; [reflexivity|exact Hl].
  - inversion Hsa; inversion Hsb; subst. cbn [rbind].
    split; [reflexivity|exact Hr].
Qed.

(** C5, as the code has it. For each accessor, either value of
    [spinpol] and any index selection, on a record whose alpha and beta
    arrays are arrays of one shape: whenever the accessor yields an array
    for [spin="a"] and one for [spin="b"], the array it yields for
    [spin="m"] is the sum over the selected rows of channel "a" minus
    channel "b". When one row is selected, the three arrays are that row
    of "a", that row of "b" and their difference, so "m" is "a" minus "b"
    at every grid point whatever the arithmetic; for several rows the sum
    of the differences is the difference of the sums in exact
    arithmetic. *)
Theorem magnetization_is_alpha_minus_beta (method_name : string)
    (self : Species) (index : option (list Z)) (w : world)
    (A B T : matrix) (xa ya xb yb : vector) :
  stored_arrays method_name (_data self) = Some (A, B, T) ->
  wf_matrix A -> wf_matrix B -> same_shape A B ->
  snd (spline_args method_name self "a" index w) = Ok (xa, ya) ->
  snd (spline_args method_name self "b" index w) = Ok (xb, yb) ->
  (exists sa sb : matrix,
     select (channel_a self A B) index = Ok sa /\
     select (channel_b self A B) index = Ok sb /\
     ya = sum_axis0 sa /\ yb = sum_axis0 sb /\
     snd (spline_args method_name self "m" index w)
       = Ok (rs (_data self),
             sum_axis0 (mkMatrix (ncols A)
                          (map2 (map2 Rminus) (rows sa) (rows sb)))) /\
     (forall ra rb : vector,
        rows sa = [ra] -> rows sb = [rb] ->
        ya = map (Rplus 0) ra /\ yb = map (Rplus 0) rb /\
        snd (spline_args method_name self "m" index w)
          = Ok (rs (_data self), map (Rplus 0) (map2 Rminus ra rb)))) /\
  snd (spline_args method_name self "m" index w)
    = Ok (rs (_data self), vsub ya yb) /\
  length ya = ncols A /\ length yb = ncols A /\
  length (vsub ya yb) = ncols A /\
  forall i : nat, (i < ncols A)%nat ->
    nth i (vsub ya yb) 0%R = (nth i ya 0 - nth i yb 0)%R.
Proof.
  intros Hst HA HB Hs Ha Hb.
  destruct (spline_args_channel method_name self index w A B T Hst)
    as [Ea Eb].
  rewrite Ea in Ha. rewrite Eb in Hb. clear Ea Eb.
  assert (Hm : snd (spline_args method_name self "m" index w)
               = rbind (nd_sub (channel_a self A B) (channel_b self A B))
                   (fun arr => rbind (select arr index) (fun sel =>
                    Ok (rs (_data self), sum_axis0 sel)))).
  { rewrite (spline_args_result _ _ "m" _ _ A B T Hst).
    unfold chosen_array, channel_a, channel_b, channels.
    destruct (_spinpol self =? 1); destruct index; reflexivity. }
  assert (Hch : wf_matrix (channel_a self A B) /\
                wf_matrix (channel_b self A B) /\
                same_shape (channel_a self A B) (channel_b self A B) /\
                ncols (channel_a self A B) = ncols A /\
                ncols (channel_b self A B) = ncols A).
  { destruct Hs as [Hr Hc]. unfold channel_a, channel_b, channels, same_shape.
    destruct (_spinpol self =? 1); cbn [fst snd]; repeat split; auto. }
  destruct Hch as [Wa [Wb [Hab [Ca Cb]]]].
  destruct (select (channel_a self A B) index) as [sa|e] eqn:Sa;
    cbn [rbind] in Ha; [|discriminate].
  destruct (select (channel_b self A B) index) as [sb|e] eqn:Sb;
    cbn [rbind] in Hb; [|discriminate].
  inversion Ha; inversion Hb; subst xa ya xb yb. clear Ha Hb.
  destruct (select_nd_sub_same_shape _ _ sa sb index (rs (_data self))
              Wa Wb Hab Sa Sb) as [Em Hl].
  rewrite Ca in Em.
  destruct (select_wf _ _ _ Wa Sa) as [Wsa Csa].
  destruct (select_wf _ _ _ Wb Sb) as [Wsb Csb].
  pose proof (sum_axis0_length sa Wsa) as La.
  pose proof (sum_axis0_length sb Wsb) as Lb.
  rewrite Csa, Ca in La. rewrite Csb, Cb in Lb.
  assert (Ev : sum_axis0 (mkMatrix (ncols A)
                            (map2 (map2 Rminus) (rows sa) (rows sb)))
               = vsub (sum_axis0 sa) (sum_axis0 sb)).
  { rewrite (sum_axis0_map2_op Rminus Rminus_interchange (Rminus_diag 0)
               (ncols A) (rows sa) (rows sb) Hl).
    unfold vsub. f_equal.
    - destruct sa as [na ra]; cbn in *. congruence.
    - destruct sb as [nb rb]; cbn in *. congruence. }
  split; [|split; [|split; [|split; [|split]]]].
  - exists sa, sb. repeat split; try reflexivity.
    + rewrite Hm. exact Em.
    + destruct sa as [na rsa]; cbn in *. subst rsa.
      apply sum_axis0_single. inversion Wsa; subst. assumption.
    + destruct sb as [nb rsb]; cbn in *. subst rsb.
      apply sum_axis0_single. inversion Wsb; subst. assumption.
    + rewrite Hm, Em. f_equal. f_equal. rewrite H, H0. cbn [map2].
      apply sum_axis0_single.
      unfold wf_matrix in Wsa, Wsb. rewrite H in Wsa. rewrite H0 in Wsb.
      inversion Wsa; inversion Wsb; subst.
      rewrite map2_length; congruence.
  - rewrite Hm, Em. now rewrite Ev.
  - exact La.
  - exact Lb.
  - unfold vsub. rewrite map2_length; congruence.
  - intros i Hi. unfold vsub. apply nth_map2; [congruence|lia].
Qed.

Lemma skipn_nth_cons (rws : list vector) (a : nat) :
  (a < length rws)%nat ->
  skipn a rws = nth a rws [] :: skipn (S a) rws.
Proof.
  revert a. induction rws as [|r rws IH]; intros a H; cbn in H; [lia|].
  destruct a as [|a]; [reflexivity|].
  cbn [skipn nth]. apply IH. lia.
Qed.

Lemma take_rows_list_seq (rws : list vector) (k a : nat) :
  (a + k <= length rws)%nat ->
  take_rows_list rws (map Z.of_nat (seq a k)) = Ok (firstn k (skipn a rws)).
Proof.
  revert a. induction k as [|k IH]; intros a H; cbn [seq map take_rows_list].
  - reflexivity.
  - assert (E : norm_index (length rws) (Z.of_nat a) = Ok a).
    { unfold norm_index.
      assert (E : ((0 <=? Z.of_nat a)
                   && (Z.of_nat a <? Z.of_nat (length rws)))%bool = true).
      { apply andb_true_iff. split; [apply Z.leb_le|apply Z.ltb_lt]; lia. }
      rewrite E. now rewrite Nat2Z.id. }
    rewrite E, IH by lia. cbn [rbind].
    rewrite (skipn_nth_cons rws a) by lia. reflexivity.
Qed.

(** X14. For [spin="a"] and [spin="b"], leaving the index out is the
    same as selecting every orbital of the channel in order, and an empty
    selection gives the zero array over the grid columns. *)
Theorem accessor_index_edge_cases (method_name : string) (self : Species)
    (spin : string) (w : world) (A B T ch : matrix) :
  stored_arrays method_name (_data self) = Some (A, B, T) ->
  (spin = "a" /\ ch = channel_a self A B) \/
  (spin = "b" /\ ch = channel_b self A B) ->
  snd (spline_args method_name self spin (Some (all_rows (nrows ch))) w)
    = snd (spline_args method_name self spin None w) /\
  snd (spline_args method_name self spin (Some []) w)
    = Ok (rs (_data self), repeat 0%R (ncols ch)).
Proof.
  intros Hst Hs.
  assert (Hres : forall index,
            snd (spline_args method_name self spin index w)
            = rbind (select ch index) (fun sel =>
              Ok (rs (_data self), sum_axis0 sel))).
  { intros index.
    destruct (spline_args_channel method_name self index w A B T Hst)
      as [Ha Hb].
    destruct Hs as [[-> ->] | [-> ->]]; assumption. }
  rewrite !Hres. split.
  - cbn [select]. unfold take_rows, all_rows, nrows.
    rewrite take_rows_list_seq by lia. cbn [skipn rbind].
    rewrite firstn_all. now destruct ch.
  - reflexivity.
Qed.

(** ** The shape of the result *)

Lemma Forall_stretch {A} (P : A -> Prop) (n : nat) (l : list A) :
  Forall P l -> Forall P (stretch n l).
Proof.
  intros H. destruct l as [|x [|y l]]; cbn; try exact H.
  inversion H; subst. apply Forall_forall. intros z Hz.
  apply repeat_spec in Hz. now subst.
Qed.

Lemma Forall_map2 {A B C} (P : A -> Prop) (Q : B -> Prop) (S : C -> Prop)
    (f : A -> B -> C) (l1 : list A) (l2 : list B) :
  (forall a b, P a -> Q b -> S (f a b)) ->
  Forall P l1 -> Forall Q l2 -> Forall S (map2 f l1 l2).
Proof.
  intros Hf H1. revert l2. induction H1 as [|a l1 Ha H1 IH]; intros l2 H2.
  - constructor.
  - destruct H2 as [|b l2 Hb H2]; cbn; constructor; auto.
Qed.

(** An operator on two rectangular arrays with the same number of
    columns gives a rectangular array with that number of columns. *)
Lemma broadcast2_cols (op : R -> R -> R) (a b m : matrix) :
  wf_matrix a -> wf_matrix b -> ncols b = ncols a ->
  broadcast2 op a b = Ok m ->
  wf_matrix m /\ ncols m = ncols a.
Proof.
  intros Ha Hb Hc. unfold broadcast2. rewrite Hc, bdim_same.
  destruct (bdim (nrows a) (nrows b)) as [nr|]; [|discriminate].
  intros H. inversion H; subst. split; [|reflexivity].
  unfold wf_matrix in *. cbn [ncols rows]. rewrite Hc in Hb.
  apply (Forall_map2 (fun r => length r = ncols a)
                     (fun r => length r = ncols a)).
  - intros u v Hu Hv.
    rewrite (stretch_same _ u Hu), (stretch_same _ v Hv).
    rewrite map2_length; congruence.
  - now apply Forall_stretch.
  - now apply Forall_stretch.
Qed.

(** X15. When the alpha, the beta and the total array of an accessor
    are rectangular with [N] columns each, whatever their numbers of
    rows, every array the accessor produces has [N] entries, one per
    grid column, and comes with the grid of the record: for every spin
    selector, index selection and spin polarisation. *)
Theorem accessor_result_length (method_name : string) (self : Species)
    (spin : string) (index : option (list Z)) (w : world)
    (A B T : matrix) (x y : vector) :
  stored_arrays method_name (_data self) = Some (A, B, T) ->
  wf_matrix A -> wf_matrix B -> wf_matrix T ->
  ncols B = ncols A -> ncols T = ncols A ->
  snd (spline_args method_name self spin index w) = Ok (x, y) ->
  x = rs (_data self) /\ length y = ncols A.
Proof.
  intros Hst HA HB HT HcB HcT.
  rewrite (spline_args_result _ self _ _ _ A B T Hst).
  destruct (valid_spin spin); cbn [negb]; [|discriminate].
  assert (Harr : forall arr,
            chosen_array (_spinpol self) A B T spin index = Ok arr ->
            wf_matrix arr /\ ncols arr = ncols A).
  { unfold chosen_array, channels, nd_add, nd_sub. intros arr.
    destruct (_spinpol self =? 1);
      destruct (is_None index && String.eqb spin "t")%bool;
      try (intros H; inversion H; subst; now auto);
      destruct (String.eqb spin "t");
      try (intros H; apply broadcast2_cols in H; auto; fail);
      try (intros H; apply broadcast2_cols in H; auto;
           destruct H as [H1 H2]; split; congruence);
      destruct (String.eqb spin "a");
      try (intros H; inversion H; subst; now auto);
      destruct (String.eqb spin "b");
      try (intros H; inversion H; subst; now auto);
      destruct (String.eqb spin "m"); try discriminate;
      try (intros H; apply broadcast2_cols in H; auto; fail);
      try (intros H; apply broadcast2_cols in H; auto;
           destruct H as [H1 H2]; split; congruence). }
  destruct (chosen_array (_spinpol self) A B T spin index) as [arr|e];
    cbn [rbind]; [|discriminate].
  destruct (Harr arr eq_refl) as [Wa Ca].
  destruct (select arr index) as [sel|e] eqn:Es; cbn [rbind]; [|discriminate].
  destruct (select_wf _ _ _ Wa Es) as [Ws Cs].
  intros H. inversion H; subst. split; [reflexivity|].
  rewrite sum_axis0_length by exact Ws. congruence.
Qed.


Lemma bdim_none (a b : nat) :
  a <> b -> a <> 1%nat -> b <> 1%nat -> bdim a b = None.
Proof.
  intros Hab Ha Hb. unfold bdim.
  destruct (Nat.eqb_spec a b); [contradiction|].
  destruct (Nat.eqb_spec a 1); [contradiction|].
  destruct (Nat.eqb_spec b 1); [contradiction|reflexivity].
Qed.

(** X16. When the alpha and the beta array have different numbers of
    orbitals, neither of them 1, the accessors still answer for
    [spin="a"] and [spin="b"], but [spin="m"], and [spin="t"] with an
    index selection, raise [ValueError]: the two arrays cannot be
    combined. *)
Theorem accessor_orbital_count_mismatch (method_name : string)
    (self : Species) (index : option (list Z)) (idx : list Z) (w : world)
    (A B T : matrix) :
  stored_arrays method_name (_data self) = Some (A, B, T) ->
  nrows A <> nrows B -> nrows A <> 1%nat -> nrows B <> 1%nat ->
  snd (spline_args method_name self "m" index w) = Err ValueError /\
  snd (spline_args method_name self "t" (Some idx) w) = Err ValueError /\
  snd (spline_args method_name self "a" None w)
    = Ok (rs (_data self), sum_axis0 (channel_a self A B)) /\
  snd (spline_args method_name self "b" None w)
    = Ok (rs (_data self), sum_axis0 (channel_b self A B)).
Proof.
  intros Hst Hab Ha Hb.
  rewrite !(spline_args_result _ self _ _ _ A B T Hst).
  unfold chosen_array, channel_a, channel_b, channels, nd_add, nd_sub,
    broadcast2.
  assert (E1 : bdim (nrows A) (nrows B) = None) by now apply bdim_none.
  assert (E2 : bdim (nrows B) (nrows A) = None)
    by (apply bdim_none; auto).
  destruct (_spinpol self =? 1); destruct index;
    cbn; rewrite ?E1, ?E2; repeat split; reflexivity.
Qed.

End AtomDB.

(* ================================================================== *)
(** * The properties on concrete inputs *)

(** A log-mode spline through (1, 2) and (2, 8): first and second
    derivative at the point 3. *)
Lemma log_spline_chain_rule_witness :
  let sp := mkDensitySpline Line.spl true
              (1, ln 2, (ln 8 - ln 2) / (2 - 1))%R in
  let s := Line.eval (_obj _ sp) in
  snd (DensitySpline_call Line.spl Line.eval exp sp [3%R] 1 (mkWorld [] []))
    = Ok (map (fun p => (s p 1%Z * exp (s p 0%Z))%R) [3%R]) /\
  snd (DensitySpline_call Line.spl Line.eval exp sp [3%R] 2 (mkWorld [] []))
    = Ok (map (fun p => (s p 2%Z * exp (s p 0%Z)
                         + (s p 1%Z) ^ 2 * exp (s p 0%Z))%R) [3%R]).
Proof.
  intros sp s.
  exact (proj2 (log_spline_chain_rule Line.spl Line.fit Line.eval exp ln
                  [1; 2]%R [2; 8]%R (mkWorld [] [])
                  (mkWorld [] [EvCubicSpline [1; 2]%R (map ln [2; 8]%R)])
                  sp eq_refl)
               [3%R] (mkWorld [] [])).
Defined.


Lemma ln_2_lower : (1 / 2 < ln 2)%R.
Proof.
  apply exp_lt_inv. rewrite exp_ln by lra.
  pose proof exp_le_3 as H3.
  replace 1%R with (1 / 2 + 1 / 2)%R in H3 by lra.
  rewrite exp_plus in H3.
  pose proof (exp_pos (1 / 2)) as Hp.
  nra.
Qed.

Lemma Float64_np_exp_nonneg (v : R) : (0 <= Float64.np_exp v)%R.
Proof.
  unfold Float64.np_exp. destruct (Rle_dec v Float64.underflow); [lra|].
  left. apply exp_pos.
Qed.

Lemma Float64_np_exp_pos (v : R) :
  (Float64.underflow < v)%R -> (0 < Float64.np_exp v)%R.
Proof.
  intros H. unfold Float64.np_exp.
  destruct (Rle_dec v Float64.underflow); [lra|apply exp_pos].
Qed.

(** The log-mode spline through (1, 2) and (2, 8), evaluated at 0, left
    of the sampled range, with the float64 exponential. *)
Lemma log_spline_nonnegative_witness :
  let sp := mkDensitySpline Line.spl true
              (1, ln 2, (ln 8 - ln 2) / (2 - 1))%R in
  exists v : list R,
    snd (DensitySpline_call Line.spl Line.eval Float64.np_exp sp [0%R] 0
           (mkWorld [] []))
      = Ok v /\
    v = map (fun p => Float64.np_exp (Line.eval (_obj _ sp) p 0)) [0%R] /\
    Forall (fun r => (0 <= r)%R) v /\
    (Forall (fun p => (Float64.underflow < Line.eval (_obj _ sp) p 0)%R)
            [0%R] ->
     Forall (fun r => (0 < r)%R) v).
Proof.
  intros sp.
  exact (proj2 (log_spline_nonnegative Line.spl Line.fit Line.eval
                  Float64.np_exp Float64.np_log Float64.underflow
                  [1; 2]%R [2; 8]%R (mkWorld [] [])
                  (mkWorld [] [EvCubicSpline [1; 2]%R (map ln [2; 8]%R)])
                  sp Float64_np_exp_nonneg Float64_np_exp_pos eq_refl)
               [0%R] (mkWorld [] [])).
Defined.

(** The log-mode spline through (0, 2) and (1, 1) is [ln 2 - x ln 2] in
    the log domain; at 2000 that is below -746, the exponential
    underflows and the call returns 0, which is not strictly positive. *)
Lemma log_spline_underflow_counterexample :
  let w := mkWorld [] [] in
  let sp := mkDensitySpline Line.spl true
              (0, ln 2, (ln 1 - ln 2) / (1 - 0))%R in
  DensitySpline_init Line.spl Line.fit Float64.np_log [0; 1]%R [2; 1]%R true w
    = (mkWorld [] [EvCubicSpline [0; 1]%R (map ln [2; 1]%R)], Ok sp) /\
  snd (DensitySpline_call Line.spl Line.eval Float64.np_exp sp [2000%R] 0 w)
    = Ok [0%R] /\
  ~ Forall (fun r => (0 < r)%R) [0%R].
Proof.
  intros w sp. split; [reflexivity|]. split.
  - unfold DensitySpline_call, obj_call, bind, emit, ret, sp.
    cbn [negb andb Z.leb Z.compare _log _obj snd map Line.eval Z.eqb].
    f_equal. f_equal. unfold Float64.np_exp.
    destruct (Rle_dec (ln 2 + (ln 1 - ln 2) / (1 - 0) * (2000 - 0))
                      Float64.underflow) as [_|Hn]; [reflexivity|].
    exfalso. apply Hn. unfold Float64.underflow. rewrite ln_1.
    pose proof ln_2_lower.
    replace (ln 2 + (0 - ln 2) / (1 - 0) * (2000 - 0))%R
      with (- (1999 * ln 2))%R by field.
    lra.
  - intros H. inversion H; subst. lra.
Qed.

(** Derivative order 3 and spin selector "x". *)
Lemma invalid_arguments_rejected_witness :
  let w := mkWorld [] [] in
  let sp := mkDensitySpline Line.spl false (1, 2, 6)%R in
  let cl := mkSpecies unit "hci" Sample.chloride 1 tt in
  DensitySpline_call Line.spl Line.eval exp sp [1%R] 3 w = (w, Err ValueError) /\
  dens_func Line.spl Line.fit ln unit cl "x" None w = (w, Err ValueError) /\
  dd_dens_func Line.spl Line.fit ln unit cl "x" None w = (w, Err ValueError) /\
  ked_func Line.spl Line.fit ln unit cl "x" None w = (w, Err ValueError).
Proof.
  intros w sp cl.
  destruct (invalid_arguments_rejected Line.spl Line.fit Line.eval exp ln unit)
    as [H1 H2].
  split.
  - apply H1. lia.
  - apply H2. intros H. cbn in H.
    repeat (destruct H as [H|H]; [discriminate H|]). exact H.
Defined.

(** A request for the first excited state of the chloride anion. *)
Lemma run_rejects_nonzero_nexc_witness :
  let w := mkWorld [] [] in
  run unit Sample.element_symbol (fun _ => Ok 17)
      (fun _ _ _ _ _ _ _ _ _ _ _ => raise TypeError)
      (PyStr "Cl") (-1) 1 1 "hci_augccpwcvqz" "data" w
    = (w, Err ValueError).
Proof.
  intros w. apply run_rejects_nonzero_nexc. discriminate.
Defined.

(** Assigning -1 to the spin polarisation of a species that had 1. *)
Lemma spinpol_setter_spec_witness :
  let cl := mkSpecies unit "hci" Sample.chloride 1 tt in
  Species_set_spinpol unit cl (PyInt (-1))
    = (mkSpecies unit "hci" Sample.chloride (-1) tt, Ok tt).
Proof.
  intros cl.
  exact (proj1 (proj2 (spinpol_setter_spec unit (fun _ => Ok tt) cl
                         (PyInt (-1))))
               (-1) eq_refl eq_refl eq_refl).
Defined.


(** The density of the chloride record, last orbital only, with the
    channels exchanged ([spinpol] = -1). *)
Lemma magnetization_is_alpha_minus_beta_witness :
  let w := mkWorld [] [] in
  let cl := mkSpecies unit "hci" Sample.chloride (-1) tt in
  let idx := Some [-1] in
  let ya := sum_axis0 (mkMatrix 2 [[1; 1]]%R) in
  let yb := sum_axis0 (mkMatrix 2 [[3; 4]]%R) in
  snd (spline_args unit "dens_func" cl "m" idx w)
    = Ok ([1; 2]%R, vsub ya yb) /\
  length ya = 2%nat /\ length yb = 2%nat /\
  length (vsub ya yb) = 2%nat /\
  forall i : nat, (i < 2)%nat ->
    nth i (vsub ya yb) 0%R = (nth i ya 0 - nth i yb 0)%R.
Proof.
  intros w cl idx ya yb.
  refine (proj2 (magnetization_is_alpha_minus_beta unit "dens_func" cl idx w
                   Sample.ones Sample.twos Sample.tots
                   [1; 2]%R ya [1; 2]%R yb
                   eq_refl _ _ _ eq_refl eq_refl)).
  - repeat constructor.
  - repeat constructor.
  - split; reflexivity.
Defined.

(** Two alpha orbitals and one beta orbital, no index: the beta row is
    subtracted from each alpha row, so "m" is [2; 4] where "a" minus "b"
    is [3; 5]. *)
Lemma magnetization_broadcast_counterexample :
  let w := mkWorld [] [] in
  let b5 := mkSpecies unit "hci" OneBeta.boron 1 tt in
  let ya := [0 + 1 + 3; 0 + 2 + 4]%R in
  let yb := [0 + 1; 0 + 1]%R in
  let ym := [0 + (1 - 1) + (3 - 1); 0 + (2 - 1) + (4 - 1)]%R in
  snd (spline_args unit "dens_func" b5 "a" None w) = Ok ([1; 2]%R, ya) /\
  snd (spline_args unit "dens_func" b5 "b" None w) = Ok ([1; 2]%R, yb) /\
  snd (spline_args unit "dens_func" b5 "m" None w) = Ok ([1; 2]%R, ym) /\
  ym <> vsub ya yb.
Proof.
  intros w b5 ya yb ym.
  split; [reflexivity|]. split; [reflexivity|]. split; [reflexivity|].
  unfold ym, ya, yb, vsub. cbn [map2]. intros H.
  injection H as H1 H2. lra.
Qed.




(* ================================================================== *)
(** * The further properties on concrete inputs *)

(** The chloride anion, singlet, ground state, under a data path
    written with its slash. *)
Lemma datafile_path_format_witness :
  datafile Sample.element_symbol
           (PyStr "Cl") (PyInt (-1)) (PyInt 1) (PyInt 0)
           "HCI_augccpwCVQZ" "data/"
    = Ok "data/hci_augccpwcvqz/db/Cl_-01_001_000.msg".
Proof.
  exact (proj1 (datafile_path_format Sample.element_symbol
                  (PyStr "Cl") (-1) 1 0 "HCI_augccpwCVQZ" "data/" "Cl"
                  eq_refl eq_refl)).
Defined.

(** The chloride key names one file. *)
Lemma datafile_injective_witness :
  (-1 = -1 /\ 1 = 1 /\ 0 = 0).
Proof.
  exact (datafile_injective Sample.element_symbol (PyStr "Cl")
           (-1) 1 0 (-1) 1 0 "HCI" "data"
           "data/hci/db/Cl_-01_001_000.msg" eq_refl eq_refl).
Defined.

(** A species made for the dataset [HCI] remembers [hci]. *)
Lemma dataset_case_insensitive_witness :
  let cl := mkSpecies unit "hci" Sample.chloride 1 tt in
  Species_dataset unit cl = lower "HCI" /\
  Species_init unit (fun _ => Ok tt) (lower "HCI") Sample.chloride (PyInt 1)
    = Ok cl.
Proof.
  intros cl.
  exact (proj2 (proj2 (dataset_case_insensitive unit (fun _ => Ok tt)
                         Sample.element_symbol
                         (PyStr "Cl") (PyInt (-1)) (PyInt 1) (PyInt 0)
                         "HCI" "data" ".molden" Sample.chloride (PyInt 1) cl))
               eq_refl).
Defined.

(** A key with a wildcard for the excitation and [True] for the
    multiplicity is accepted. *)
Lemma datafile_accepts_witness :
  exists path : string,
    datafile Sample.element_symbol
             (PyInt 17) (PyInt (-1)) (PyBool true) PyEllipsis "hci" "data"
      = Ok path.
Proof.
  apply (proj2 (proj1 (datafile_accepts Sample.element_symbol
                         (PyInt 17) (PyInt (-1)) (PyBool true) PyEllipsis
                         "hci" "data" ".molden"))).
  split; [right; exists "Cl"; reflexivity|].
  repeat split; reflexivity.
Defined.

(** Loading the chloride record from an empty store. *)
Lemma load_exact_key_witness :
  load unit (fun _ => Ok tt) Sample.element_symbol
       (fun _ => Err ValueError) (fun names _ => names)
       (PyStr "Cl") (PyInt (-1)) (PyInt 1) (PyInt 0) "hci" "data"
       (mkWorld [] [])
    = (mkWorld [] [EvOpen "data/hci/db/Cl_-01_001_000.msg" "r"],
       Err FileNotFoundError).
Proof.
  exact (load_exact_key unit (fun _ => Ok tt) Sample.element_symbol
           (fun _ => Err ValueError) (fun names _ => names)
           (PyStr "Cl") (PyInt (-1)) (PyInt 1) (PyInt 0) "hci" "data"
           (mkWorld [] []) eq_refl).
Defined.

(** Loading every excitation of chloride from a store that holds one
    matching file. *)
Lemma load_wildcard_witness :
  let fn := "data/hci/db/Cl_-01_001_000.msg" in
  let w := mkWorld [(fn, [])] [] in
  load unit (fun _ => Ok tt) Sample.element_symbol
       (fun _ => Err ValueError) (fun names _ => names)
       (PyStr "Cl") (PyInt (-1)) (PyInt 1) PyEllipsis "hci" "data" w
    = (mkWorld [(fn, [])] [EvOpen fn "rb"], Err AttributeError).
Proof.
  intros fn w.
  exact (load_wildcard unit (fun _ => Ok tt) Sample.element_symbol
           (fun _ => Err ValueError) (fun names _ => names)
           (PyStr "Cl") (PyInt (-1)) (PyInt 1) PyEllipsis "hci" "data"
           "data/hci/db/Cl_-01_001_*.msg" w eq_refl eq_refl).
Defined.

(** Compiling for a dataset whose module has no routine. *)
Lemma compile_never_completes_witness :
  compile unit (fun _ => PyStr "Cl") Sample.element_symbol (fun _ => [])
          (fun _ => Err AttributeError)
          (PyStr "Cl") (-1) 1 0 "hci" "data" (mkWorld [] [])
    = (mkWorld [] [EvExternal "os.makedirs"; EvExternal "os.makedirs"],
       Err AttributeError).
Proof.
  exact (proj2 (compile_never_completes unit (fun _ => PyStr "Cl")
                  Sample.element_symbol (fun _ => [])
                  (fun _ => Err AttributeError)
                  (PyStr "Cl") (-1) 1 0 "hci" "data" (mkWorld [] []))
               AttributeError eq_refl).
Defined.

(** The chloride anion as a singlet: 18 electrons, 9 up and 9 down. *)
Lemma run_electron_counts_witness :
  (17 - -1 + (1 - 1)) / 2 + (17 - -1 - (1 - 1)) / 2 = 17 - -1 /\
  (17 - -1 + (1 - 1)) / 2 - (17 - -1 - (1 - 1)) / 2 = 1 - 1.
Proof.
  exact (proj2 (proj2 (proj2 (run_electron_counts unit Sample.element_symbol
                         (fun _ => Ok 17)
                         (fun _ _ _ _ _ _ _ _ _ _ _ => raise TypeError)
                         (PyStr "Cl") (-1) 1 "hci" "data" (mkWorld [] []))
                       "Cl" 17 eq_refl eq_refl))
               eq_refl).
Defined.

(** A linear-mode spline called with [deriv=2] at three points. *)
Lemma DensitySpline_call_shape_witness :
  let sp := mkDensitySpline Line.spl false (1, 2, 6)%R in
  exists (w' : world) (v : list R),
    DensitySpline_call Line.spl Line.eval exp sp [0; 1; 5]%R 2 (mkWorld [] [])
      = (w', Ok v) /\
    length v = 3%nat /\ files w' = [].
Proof.
  intros sp.
  apply (DensitySpline_call_shape Line.spl Line.eval exp sp [0; 1; 5]%R 2
           (mkWorld [] [])).
  lia.
Defined.



(** The alpha density of the chloride record, all orbitals. *)
Lemma accessor_spline_is_linear_witness :
  let cl := mkSpecies unit "hci" Sample.chloride 1 tt in
  let sp := mkDensitySpline Line.spl false
              (1, 0 + 1 + 3, (0 + 2 + 4 - (0 + 1 + 3)) / (2 - 1))%R in
  _log _ sp = false /\
  (exists x y : list R,
     snd (spline_args unit "dens_func" cl "a" None (mkWorld [] []))
       = Ok (x, y) /\
     Line.fit x y = Ok (_obj _ sp)) /\
  (forall (q : list R) (d : Z) (w2 : world),
     0 <= d <= 2 ->
     snd (DensitySpline_call Line.spl Line.eval exp sp q d w2)
       = Ok (map (fun p => Line.eval (_obj _ sp) p d) q)).
Proof.
  intros cl sp.
  exact (accessor_spline_is_linear Line.spl Line.fit Line.eval exp ln unit
           "dens_func" cl "a" None (mkWorld [] [])
           (mkWorld [] [EvGetattr "mo_dens_a"; EvGetattr "rs";
                        EvCubicSpline [1; 2]%R [0 + 1 + 3; 0 + 2 + 4]%R])
           sp eq_refl).
Defined.

(** The chloride record read with [spinpol] -1 and with [spinpol] 1. *)
Lemma spinpol_flip_witness :
  let cl := mkSpecies unit "hci" Sample.chloride 1 tt in
  let w := mkWorld [] [] in
  snd (spline_args unit "dens_func" (flipped unit cl) "a" (Some [0]) w)
    = snd (spline_args unit "dens_func" cl "b" (Some [0]) w) /\
  snd (spline_args unit "dens_func" (flipped unit cl) "b" (Some [0]) w)
    = snd (spline_args unit "dens_func" cl "a" (Some [0]) w) /\
  snd (spline_args unit "dens_func" (flipped unit cl) "t" (Some [0]) w)
    = snd (spline_args unit "dens_func" cl "t" (Some [0]) w) /\
  snd (spline_args unit "dens_func" (flipped unit cl) "m" (Some [0]) w)
    = match snd (spline_args unit "dens_func" cl "m" (Some [0]) w) with
      | Ok (x, y) => Ok (x, map Ropp y)
      | Err e => Err e
      end.
Proof.
  intros cl w.
  apply (spinpol_flip unit "dens_func" cl (Some [0]) w w
           Sample.ones Sample.twos Sample.tots eq_refl).
  left. reflexivity.
Defined.

(** Orbital 2 of a channel with two orbitals, and orbital -1. *)
Lemma accessor_index_bounds_witness :
  let cl := mkSpecies unit "hci" Sample.chloride 1 tt in
  let w := mkWorld [] [] in
  (exists evs : list event,
     spline Line.spl Line.fit ln unit "dens_func" cl "a" (Some [2]) w
       = (mkWorld [] ([] ++ evs), Err IndexError) /\
     forall x y, ~ In (EvCubicSpline x y) evs) /\
  (exists y : list R,
     snd (spline_args unit "dens_func" cl "a" (Some [-1]) w)
       = Ok ([1; 2]%R, y) /\
     snd (spline_args unit "dens_func" cl "a" (Some [1]) w)
       = Ok ([1; 2]%R, y)).
Proof.
  intros cl w.
  destruct (accessor_index_bounds Line.spl Line.fit ln unit "dens_func" cl "a"
              [2] w Sample.ones Sample.twos Sample.tots Sample.ones
              eq_refl (or_introl (conj eq_refl eq_refl))) as [H1 _].
  destruct (accessor_index_bounds Line.spl Line.fit ln unit "dens_func" cl "a"
              [-1] w Sample.ones Sample.twos Sample.tots Sample.ones
              eq_refl (or_introl (conj eq_refl eq_refl))) as [_ H2].
  split.
  - apply H1. constructor. unfold in_range. cbn. lia.
  - apply H2. constructor; [|constructor]. unfold in_range. cbn. lia.
Defined.

(** All orbitals and no orbital of the beta channel of the chloride
    record. *)
Lemma accessor_index_edge_cases_witness :
  let cl := mkSpecies unit "hci" Sample.chloride 1 tt in
  let w := mkWorld [] [] in
  snd (spline_args unit "dens_func" cl "b" (Some [0; 1]) w)
    = snd (spline_args unit "dens_func" cl "b" None w) /\
  snd (spline_args unit "dens_func" cl "b" (Some []) w)
    = Ok ([1; 2]%R, [0; 0]%R).
Proof.
  intros cl w.
  exact (accessor_index_edge_cases unit "dens_func" cl "b" w
           Sample.ones Sample.twos Sample.tots Sample.twos
           eq_refl (or_intror (conj eq_refl eq_refl))).
Defined.

(** The first alpha orbital of the lithium record: two entries, one
    per grid point, although the channels have two and three orbitals. *)
Lemma accessor_result_length_witness :
  let li := mkSpecies unit "hci" Unrestricted.lithium 1 tt in
  let y := sum_axis0 (mkMatrix 2 [[1; 2]]%R) in
  [1; 2]%R = rs (_data unit li) /\ length y = 2%nat.
Proof.
  intros li y.
  refine (accessor_result_length unit "dens_func" li "a" (Some [0])
            (mkWorld [] [])
            Unrestricted.alpha Unrestricted.beta Unrestricted.total
            [1; 2]%R y eq_refl _ _ _ eq_refl eq_refl eq_refl);
    repeat constructor.
Defined.

(** The lithium record: two alpha orbitals, three beta orbitals. *)
Lemma accessor_orbital_count_mismatch_witness :
  let li := mkSpecies unit "hci" Unrestricted.lithium 1 tt in
  let w := mkWorld [] [] in
  snd (spline_args unit "dens_func" li "m" None w) = Err ValueError /\
  snd (spline_args unit "dens_func" li "t" (Some [0]) w) = Err ValueError /\
  snd (spline_args unit "dens_func" li "a" None w)
    = Ok ([1; 2]%R, sum_axis0 Unrestricted.alpha) /\
  snd (spline_args unit "dens_func" li "b" None w)
    = Ok ([1; 2]%R, sum_axis0 Unrestricted.beta).
Proof.
  intros li w.
  apply (accessor_orbital_count_mismatch unit "dens_func" li None [0] w
           Unrestricted.alpha Unrestricted.beta Unrestricted.total eq_refl);
    cbn; lia.
Defined.
